(** * materia: the task / workflow core and its Q-Chem engine

    A shallow embedding of

    - [materia/workflow/tasks.py]: [Task], [MaxLIPOTR];
    - [materia/engines/qchem.py]: [QChem.command], the [defaults] / [parse]
      pairs of the Q-Chem tasks, [QChemBaseTask.compute],
      [QChemKoopmanError.compute] and [QChemLRTDDFT.compute];

    followed by the properties of the specification that concern them.
    Python objects that are mutated in place live in explicit stores, Python
    exceptions are the [Raise] results of [result]. *)

From Stdlib Require Import ZArith QArith Lia Ascii String List DecimalString.
From stdpp Require Import gmap strings list.

Set Warnings "-register-all".

(** ** Python results *)

Inductive exn :=
  | NotImplementedError
  | TypeError
  | ValueError
  | AttributeError
  | IndexError
  | KeyError
  | OSError
  | RuntimeError.

Inductive result (A : Type) :=
  | Ok (a : A)
  | Raise (e : exn).
Arguments Ok {A} a.
Arguments Raise {A} e.

(** ** tasks.py: [MaxLIPOTR] *)

(** [dlib.find_min_global] and [dlib.find_max_global] differ only in the
    direction in which observations are compared. *)
Inductive direction := Minimize | Maximize.

Section MaxLIPOTR.
(** [T = Union[int, float]], the type of coordinates and objective values,
    with [leb a b] for Python's [a <= b]. *)
Context {T : Type} `{Countable T}.
Variable leb : T -> T -> bool.

(** The objective is any Python callable: it may keep a state of its own,
    of type [W], so two calls at the same coordinates need not agree. *)
Context {W : Type}.

(** What a caller can pass for [x_min] / [x_max]
    ([Union[T, Iterable[T]]]): a number, a [list] or another sequence. *)
Inductive pyval :=
  | PNum (x : T)
  | PList (xs : list pyval)
  | PTuple (xs : list pyval).

(** One observation of the search: the coordinates and the value there. *)
Definition observation : Type := list T * T.

(** Modelled from the spec: [materia.utils.memoize], absent from the
    sources.  "Objective calls are memoized by the exact argument tuple;
    repeated evaluation at identical coordinates returns the cached value
    rather than re-invoking the objective."  [calls] logs the argument
    tuples the underlying objective was really invoked with. *)
Record memo := {
  cache : gmap (list T) T;
  calls : list (list T);
  objective_state : W
}.

Definition memoize (f : list T -> W -> T * W) (args : list T) (st : memo)
  : T * memo :=
  match cache st !! args with
  | Some y => (y, st)
  | None =>
      let '(y, w) := f args (objective_state st) in
      (y, {| cache := <[args := y]> (cache st);
             calls := calls st ++ [args];
             objective_state := w |})
  end.

(** [MaxLIPOTR.__init__] keeps the objective; the memo starts empty. *)
Record MaxLIPOTR := { objective_function : list T -> W -> T * W }.

Definition memo_init (w : W) : memo :=
  {| cache := ∅; calls := []; objective_state := w |}.

(** [@memoize def _evaluate_objective(self, *args)]. *)
Definition _evaluate_objective (self : MaxLIPOTR) (args : list T) (st : memo)
  : T * memo :=
  memoize (objective_function self) args st.


(** *** The part of dlib that [run] calls

    dlib is a third-party library.  Its global search is kept abstract in
    the rule [propose] that picks the next sample from the bounds, the
    solver tolerance and the observations made so far (the LIPO upper
    bound, the trust-region step and the random draws all live there); the
    rest is dlib's documented contract: [num_function_calls] evaluations,
    then the best observation in the direction asked for. *)
Variable propose :
  direction -> list T -> list T -> T -> list observation -> list T.

(** [better d y y']: [y] is strictly better than [y'] in direction [d]. *)
Definition better (d : direction) (y y' : T) : bool :=
  match d with
  | Minimize => negb (leb y' y)
  | Maximize => negb (leb y y')
  end.

(** The best observation so far is replaced only by a strictly better one. *)
Fixpoint get_best_function_eval (d : direction) (best : observation)
    (obs : list observation) : observation :=
  match obs with
  | [] => best
  | o :: obs' =>
      get_best_function_eval d (if better d (snd o) (snd best) then o else best) obs'
  end.

Fixpoint global_function_search {S : Type} (d : direction) (lo hi : list T)
    (eps : T) (f : list T -> S -> T * S) (n : nat)
    (obs : list observation) (st : S) : list observation * S :=
  match n with
  | O => (obs, st)
  | Datatypes.S n' =>
      let x := propose d lo hi eps obs in
      let '(y, st') := f x st in
      global_function_search d lo hi eps f n' (obs ++ [(x, y)]) st'
  end.

(** The Python binding takes each bound as a [list] of numbers. *)
Definition as_number (v : pyval) : option T :=
  match v with
  | PNum x => Some x
  | _ => None
  end.

Definition as_vector (v : pyval) : option (list T) :=
  match v with
  | PList xs => mapM as_number xs
  | _ => None
  end.

Definition find_global {S : Type} (d : direction) (f : list T -> S -> T * S)
    (bound1 bound2 : pyval) (num_function_calls : nat) (solver_epsilon : T)
    (st : S) : result observation * S :=
  match as_vector bound1, as_vector bound2 with
  | Some lo, Some hi =>
      if decide (length lo = length hi) then
        let '(obs, st') :=
          global_function_search d lo hi solver_epsilon f num_function_calls [] st in
        match obs with
        | [] => (Raise RuntimeError, st')
        | o :: obs' => (Ok (get_best_function_eval d o obs'), st')
        end
      else (Raise RuntimeError, st)
  | _, _ => (Raise TypeError, st)
  end.

Definition find_min_global {S : Type} := @find_global S Minimize.
Definition find_max_global {S : Type} := @find_global S Maximize.

(** *** [MaxLIPOTR.run] *)

(** [x if isinstance(x, list) else [x]]. *)
Definition as_bound_list (x : pyval) : pyval :=
  match x with
  | PList _ => x
  | _ => PList [x]
  end.

Definition run (self : MaxLIPOTR) (x_min x_max : pyval) (num_evals : nat)
    (epsilon : T) (st : memo) : result observation * memo :=
  find_min_global (_evaluate_objective self)
    (as_bound_list x_min) (as_bound_list x_max) num_evals epsilon st.

(** The observations [run] makes on the way (dlib keeps them to itself). *)
Definition run_observations (self : MaxLIPOTR) (x_min x_max : pyval)
    (num_evals : nat) (epsilon : T) (st : memo) : list observation :=
  match as_vector (as_bound_list x_min), as_vector (as_bound_list x_max) with
  | Some lo, Some hi =>
      fst (global_function_search Minimize lo hi epsilon
             (_evaluate_objective self) num_evals [] st)
  | _, _ => []
  end.

(** [a] is at least as good as [b] in direction [d]. *)
Definition as_good (d : direction) (a b : T) : Prop :=
  match d with
  | Minimize => leb a b = true
  | Maximize => leb b a = true
  end.

(** What it means for a search to return its best observation in
    direction [d], together with the value observed there. *)
Definition returns_best_observed (d : direction) (r : result observation)
    (obs : list observation) : Prop :=
  ∃ o, r = Ok o ∧ o ∈ obs ∧ ∀ o', o' ∈ obs → as_good d (snd o) (snd o').
End MaxLIPOTR.

Arguments pyval T : clear implicits.
Arguments memo T {_ _} W.
Arguments MaxLIPOTR T W : clear implicits.

(** A concrete search on integers: sample the lower corner, the upper
    corner, then midpoints of the box. *)
Definition midpoint_rule (d : direction) (lo hi : list Z) (eps : Z)
    (obs : list (list Z * Z)) : list Z :=
  match length obs with
  | 0 => lo
  | 1 => hi
  | _ => zip_with (fun a b => (a + b) / 2)%Z lo hi
  end.

(** [lambda x: (x - 2) ** 2], the objective of the repository's own test. *)
Definition parabola : MaxLIPOTR Z unit :=
  {| objective_function := fun args w =>
       (match args with [x] => (x - 2) ^ 2 | _ => 0 end%Z, w) |}.

(** ** tasks.py: [Task] *)

Section Task.
(** Handlers and dependencies are opaque to [Task]. *)
Context {Handler Dep : Type}.

Record Task := {
  handlers : list Handler;
  name : string;
  requirements : list Dep * gmap string Dep
}.

(** [Task.__init__]: [handlers or []], [name or ""], no requirements. *)
Definition Task_init (handlers : option (list Handler)) (name : option string)
  : Task :=
  {| handlers := default [] handlers;
     name := default String.EmptyString name;
     requirements := ([], ∅) |}.

(** [self.requirements = (args, kwargs)]. *)
Definition requires (self : Task) (args : list Dep) (kwargs : gmap string Dep)
  : Task :=
  {| handlers := handlers self;
     name := name self;
     requirements := (args, kwargs) |}.

Definition Task_run {A : Type} (self : Task) (kwargs : gmap string Dep)
  : result A :=
  Raise NotImplementedError.

(** Tasks are objects: [requires] updates the one a reference points to,
    and every holder of the reference sees the update. *)
Definition requires_at (r : nat) (args : list Dep) (kwargs : gmap string Dep)
    (tasks : gmap nat Task) : gmap nat Task :=
  match tasks !! r with
  | Some self => <[r := requires self args kwargs]> tasks
  | None => tasks
  end.
End Task.

Arguments Task Handler Dep : clear implicits.

(** ** qchem.py: settings and the [defaults] of each task *)

(** The values the tasks store in a settings object. *)
Inductive setting :=
  | SStr (s : string)
  | SInt (n : Z)
  | SBool (b : bool).

#[global] Instance setting_eq_dec : EqDecision setting.
Proof. solve_decision. Defined.

(** Modelled from the spec: [mtr.Settings], absent from the sources, is a
    mapping from keys (tuples of strings such as [("rem", "basis")]) to
    values, with [key in settings] and [settings[key] = value]. *)
Abbreviation Settings := (gmap (list string) setting).

Definition contains (settings : Settings) (key : list string) : bool :=
  bool_decide (is_Some (settings !! key)).

Definition setitem (key : list string) (v : setting) (settings : Settings)
  : Settings :=
  <[key := v]> settings.

(** One [if key not in settings: settings[key] = v]. *)
Definition fill_step (s : Settings) (kv : list string * setting) : Settings :=
  if negb (contains s kv.1) then setitem kv.1 kv.2 s else s.

(** *** [str.lower] and [str.strip]

    A Python [str] is held as the list of its characters, each character of
    type [ascii] standing for the code point of the same number: the texts
    of the model are those whose code points lie below 256.  On these
    [str.lower] and [str.isspace] are the functions below, the characters
    above 127 included. *)

(** [str.lower] on one character: [A] to [Z], and the capital letters
    U+00C0 to U+00DE other than the multiplication sign U+00D7, move up
    by 32. *)
Definition lower_ascii (c : ascii) : ascii :=
  let n := nat_of_ascii c in
  if ((65 <=? n)%nat && (n <=? 90)%nat)
     || ((192 <=? n)%nat && (n <=? 214)%nat)
     || ((216 <=? n)%nat && (n <=? 222)%nat)
  then ascii_of_nat (n + 32) else c.

Fixpoint lower (s : string) : string :=
  match s with
  | EmptyString => EmptyString
  | String c s' => String (lower_ascii c) (lower s')
  end.

(** [str.isspace] on one character: the blanks [str.strip] removes are
    U+0009 to U+000D, U+001C to U+0020, the next-line character U+0085 and
    the no-break space U+00A0. *)
Definition isspace (c : ascii) : bool :=
  let n := nat_of_ascii c in
  ((9 <=? n)%nat && (n <=? 13)%nat) || ((28 <=? n)%nat && (n <=? 32)%nat)
  || (n =? 133)%nat || (n =? 160)%nat.

Fixpoint lstrip (s : string) : string :=
  match s with
  | EmptyString => EmptyString
  | String c s' => if isspace c then lstrip s' else s
  end.

(** Drops trailing whitespace: a character stays when it is not a space or
    when something stays after it. *)
Fixpoint rstrip (s : string) : string :=
  match s with
  | EmptyString => EmptyString
  | String c s' =>
      match rstrip s' with
      | EmptyString => if isspace c then EmptyString else String c EmptyString
      | t => String c t
      end
  end.

Definition strip (s : string) : string := rstrip (lstrip s).

(** *** The [defaults] methods *)

Local Open Scope string_scope.

Definition rem_exchange : list string := ["rem"; "exchange"].
Definition rem_method : list string := ["rem"; "method"].
Definition rem_basis : list string := ["rem"; "basis"].
Definition rem_jobtype : list string := ["rem"; "jobtype"].

(** Each method is the chain of [if key not in settings: settings[key] = v]
    of the source, test after test on the settings as updated so far. *)
Definition QChemAIMD_defaults (settings : Settings) : result Settings :=
  let settings :=
    if negb (contains settings rem_exchange) && negb (contains settings rem_method)
    then setitem rem_exchange (SStr "HF") settings else settings in
  let settings :=
    if negb (contains settings rem_basis)
    then setitem rem_basis (SStr "3-21G") settings else settings in
  let settings :=
    if negb (contains settings rem_jobtype)
    then setitem rem_jobtype (SStr "aimd") settings else settings in
  let settings :=
    if negb (contains settings ["rem"; "time_step"])
    then setitem ["rem"; "time_step"] (SInt 1) settings else settings in
  let settings :=
    if negb (contains settings ["rem"; "aimd_steps"])
    then setitem ["rem"; "aimd_steps"] (SInt 10) settings else settings in
  let settings :=
    if negb (contains settings ["velocity"])
       && negb (contains settings ["rem"; "aimd_init_veloc"])
    then setitem ["rem"; "aimd_init_veloc"] (SStr "thermal") settings
    else settings in
  (* [and] is lazy: [.lower()] runs only when the key is there, and raises
     on a value that is not a string; the last test runs only for "thermal" *)
  match settings !! ["rem"; "aimd_init_veloc"] with
  | None => Ok settings
  | Some (SStr v) =>
      if bool_decide (strip (lower v) = "thermal")
         && negb (contains settings ["rem"; "aimd_temp"])
      then Ok (setitem ["rem"; "aimd_temp"] (SInt 300) settings)
      else Ok settings
  | Some _ => Raise AttributeError
  end.

Definition QChemKoopmanError_defaults (settings : Settings) : Settings :=
  let settings :=
    if negb (contains settings rem_exchange) && negb (contains settings rem_method)
    then setitem rem_exchange (SStr "hf") settings else settings in
  let settings :=
    if negb (contains settings rem_basis)
    then setitem rem_basis (SStr "3-21G") settings else settings in
  let settings :=
    if negb (contains settings rem_jobtype)
    then setitem rem_jobtype (SStr "sp") settings else settings in
  settings.

Definition QChemLRTDDFT_defaults (settings : Settings) : Settings :=
  let settings :=
    if negb (contains settings rem_exchange) && negb (contains settings rem_method)
    then setitem rem_exchange (SStr "HF") settings else settings in
  let settings :=
    if negb (contains settings rem_basis)
    then setitem rem_basis (SStr "3-21G") settings else settings in
  let settings :=
    if negb (contains settings ["rem"; "cis_n_roots"])
    then setitem ["rem"; "cis_n_roots"] (SInt 1) settings else settings in
  let settings :=
    if negb (contains settings ["rem"; "cis_singlets"])
    then setitem ["rem"; "cis_singlets"] (SBool true) settings else settings in
  let settings :=
    if negb (contains settings ["rem"; "cis_triplets"])
    then setitem ["rem"; "cis_triplets"] (SBool false) settings else settings in
  let settings :=
    if negb (contains settings ["rem"; "rpa"])
    then setitem ["rem"; "rpa"] (SBool true) settings else settings in
  settings.

Definition QChemOptimize_defaults (settings : Settings) : Settings :=
  let settings :=
    if negb (contains settings rem_exchange) && negb (contains settings rem_method)
    then setitem rem_exchange (SStr "HF") settings else settings in
  let settings :=
    if negb (contains settings rem_basis)
    then setitem rem_basis (SStr "3-21G") settings else settings in
  let settings :=
    if negb (contains settings rem_jobtype)
    then setitem rem_jobtype (SStr "opt") settings else settings in
  settings.

Definition QChemPolarizability_defaults (settings : Settings) : Settings :=
  let settings :=
    if negb (contains settings rem_exchange) && negb (contains settings rem_method)
    then setitem rem_exchange (SStr "HF") settings else settings in
  let settings :=
    if negb (contains settings rem_basis)
    then setitem rem_basis (SStr "3-21G") settings else settings in
  let settings :=
    if negb (contains settings rem_jobtype)
    then setitem rem_jobtype (SStr "polarizability") settings else settings in
  settings.

Definition QChemVolume_defaults (settings : Settings) : Settings :=
  let settings :=
    if negb (contains settings rem_exchange) && negb (contains settings rem_method)
    then setitem rem_exchange (SStr "HF") settings else settings in
  let settings :=
    if negb (contains settings rem_basis)
    then setitem rem_basis (SStr "STO-3G") settings else settings in
  let settings :=
    if negb (contains settings ["rem"; "scf_convergence"])
    then setitem ["rem"; "scf_convergence"] (SInt 1) settings else settings in
  let settings :=
    if negb (contains settings ["rem"; "solvent_method"])
    then setitem ["rem"; "solvent_method"] (SStr "pcm") settings else settings in
  let settings :=
    if negb (contains settings ["pcm"; "theory"])
    then setitem ["pcm"; "theory"] (SStr "iefpcm") settings else settings in
  let settings :=
    if negb (contains settings ["pcm"; "printlevel"])
    then setitem ["pcm"; "printlevel"] (SInt 2) settings else settings in
  let settings :=
    if negb (contains settings ["pcm"; "heavypoints"])
    then setitem ["pcm"; "heavypoints"] (SInt 194) settings else settings in
  let settings :=
    if negb (contains settings ["pcm"; "hpoints"])
    then setitem ["pcm"; "hpoints"] (SInt 194) settings else settings in
  let settings :=
    if negb (contains settings ["solvent"; "dielectric"])
    then setitem ["solvent"; "dielectric"] (SInt 1) settings else settings in
  settings.

Definition QChemSinglePoint_defaults (settings : Settings) : Settings :=
  let settings :=
    if negb (contains settings rem_exchange) && negb (contains settings rem_method)
    then setitem rem_exchange (SStr "HF") settings else settings in
  let settings :=
    if negb (contains settings rem_basis)
    then setitem rem_basis (SStr "3-21G") settings else settings in
  let settings :=
    if negb (contains settings rem_jobtype)
    then setitem rem_jobtype (SStr "sp") settings else settings in
  settings.

Definition QChemSinglePointFrontier_defaults (settings : Settings) : Settings :=
  let settings :=
    if negb (contains settings rem_exchange) && negb (contains settings rem_method)
    then setitem rem_exchange (SStr "HF") settings else settings in
  let settings :=
    if negb (contains settings rem_basis)
    then setitem rem_basis (SStr "3-21G") settings else settings in
  let settings :=
    if negb (contains settings rem_jobtype)
    then setitem rem_jobtype (SStr "sp") settings else settings in
  settings.

(** The subclasses of [QChemBaseTask], and the base class itself. *)
Inductive qchem_task :=
  | QChemBaseTask
  | QChemAIMD
  | QChemLRTDDFT
  | QChemOptimize
  | QChemPolarizability
  | QChemVolume
  | QChemSinglePoint
  | QChemSinglePointFrontier.

(** [self.defaults(settings)], dispatched on the class of [self]. *)
Definition defaults (self : qchem_task) (settings : Settings) : result Settings :=
  match self with
  | QChemBaseTask => Raise NotImplementedError
  | QChemAIMD => QChemAIMD_defaults settings
  | QChemLRTDDFT => Ok (QChemLRTDDFT_defaults settings)
  | QChemOptimize => Ok (QChemOptimize_defaults settings)
  | QChemPolarizability => Ok (QChemPolarizability_defaults settings)
  | QChemVolume => Ok (QChemVolume_defaults settings)
  | QChemSinglePoint => Ok (QChemSinglePoint_defaults settings)
  | QChemSinglePointFrontier => Ok (QChemSinglePointFrontier_defaults settings)
  end.

(** The values each [defaults] writes, as one table per class: the [D] of
    the override law. *)
Definition default_table (self : qchem_task) : Settings :=
  match self with
  | QChemBaseTask => ∅
  | QChemAIMD =>
      list_to_map
        [(rem_exchange, SStr "HF"); (rem_basis, SStr "3-21G");
         (rem_jobtype, SStr "aimd"); (["rem"; "time_step"], SInt 1);
         (["rem"; "aimd_steps"], SInt 10);
         (["rem"; "aimd_init_veloc"], SStr "thermal");
         (["rem"; "aimd_temp"], SInt 300)]
  | QChemLRTDDFT =>
      list_to_map
        [(rem_exchange, SStr "HF"); (rem_basis, SStr "3-21G");
         (["rem"; "cis_n_roots"], SInt 1); (["rem"; "cis_singlets"], SBool true);
         (["rem"; "cis_triplets"], SBool false); (["rem"; "rpa"], SBool true)]
  | QChemOptimize =>
      list_to_map
        [(rem_exchange, SStr "HF"); (rem_basis, SStr "3-21G");
         (rem_jobtype, SStr "opt")]
  | QChemPolarizability =>
      list_to_map
        [(rem_exchange, SStr "HF"); (rem_basis, SStr "3-21G");
         (rem_jobtype, SStr "polarizability")]
  | QChemVolume =>
      list_to_map
        [(rem_exchange, SStr "HF"); (rem_basis, SStr "STO-3G");
         (["rem"; "scf_convergence"], SInt 1);
         (["rem"; "solvent_method"], SStr "pcm");
         (["pcm"; "theory"], SStr "iefpcm"); (["pcm"; "printlevel"], SInt 2);
         (["pcm"; "heavypoints"], SInt 194); (["pcm"; "hpoints"], SInt 194);
         (["solvent"; "dielectric"], SInt 1)]
  | QChemSinglePoint | QChemSinglePointFrontier =>
      list_to_map
        [(rem_exchange, SStr "HF"); (rem_basis, SStr "3-21G");
         (rem_jobtype, SStr "sp")]
  end.

(** The override law of the specification:
    [merge(D, S)[k] == S[k] if k in S else D[k]]. *)
Definition override_law (D S merged : Settings) : Prop :=
  ∀ k, merged !! k = match S !! k with
                     | Some v => Some v
                     | None => D !! k
                     end.

(** [is_thermal v]: the test [v.lower().strip() == "thermal"] on a setting
    that is a string. *)
Definition is_thermal (v : setting) : bool :=
  match v with
  | SStr s => bool_decide (strip (lower s) = "thermal")
  | _ => false
  end.

(** The tests that guard each default, read off the [defaults] methods:
    the default of key [k] is written into settings that lack [k] only when
    [applies self S k] holds. *)
Definition applies (self : qchem_task) (S : Settings) (k : list string) : bool :=
  if bool_decide (k = rem_exchange) then negb (contains S rem_method)
  else
    match self with
    | QChemAIMD =>
        if bool_decide (k = ["rem"; "aimd_init_veloc"])
        then negb (contains S ["velocity"])
        else if bool_decide (k = ["rem"; "aimd_temp"])
        then match S !! ["rem"; "aimd_init_veloc"] with
             | Some v => is_thermal v
             | None => negb (contains S ["velocity"])
             end
        else true
    | _ => true
    end.

(** What a lookup in the merged settings gives: the caller's value, or
    else the default when its test lets it through. *)
Definition merged_lookup (self : qchem_task) (S : Settings) (k : list string)
  : option setting :=
  match S !! k with
  | Some v => Some v
  | None => if applies self S k then default_table self !! k else None
  end.

(** ** qchem.py: [QChem.command] *)

(** *** [shlex.split]

    [shlex.split(s)] is [shlex.shlex(s, posix=True)] with
    [whitespace_split = True] and no comment characters, read to the end:
    the tokenizer [read_token] of CPython's [shlex] module, run until it
    returns the end-of-file token.  [state] is [' '] between tokens, ['a']
    inside a word, a quote character inside quotes and the escape character
    after a backslash. *)

Definition is_whitespace (c : ascii) : bool :=
  bool_decide (c = " "%char) || bool_decide (c = "009"%char)
  || bool_decide (c = "013"%char) || bool_decide (c = "010"%char).

(** The quotes are ['] (39) and the double quote (34); only the double
    quote is in [escapedquotes]. *)
Definition is_quote (c : ascii) : bool :=
  bool_decide (c = "039"%char) || bool_decide (c = "034"%char).

Definition is_escape (c : ascii) : bool := bool_decide (c = "092"%char).

Definition is_escapedquote (c : ascii) : bool := bool_decide (c = "034"%char).

Inductive shlex_state :=
  | StSpace
  | StWord
  | StQuote (q : ascii)
  | StEscape (esc : ascii) (escapedstate : option ascii).

(** [escapedstate] is ['a'] ([None] here) or the quote that was open. *)
Definition escaped_back (escapedstate : option ascii) : shlex_state :=
  match escapedstate with
  | None => StWord
  | Some q => StQuote q
  end.

Definition emit (token : string) (rest : result (list string))
  : result (list string) :=
  match rest with
  | Ok tokens => Ok (token :: tokens)
  | Raise e => Raise e
  end.

Definition nonempty (s : string) : bool :=
  match s with
  | EmptyString => false
  | String _ _ => true
  end.

(** One pass over the input; [token] and [quoted] are those of the
    [read_token] call under way, and a [break] with a token to return
    emits it and starts the next call. *)
Fixpoint read_tokens (state : shlex_state) (token : string) (quoted : bool)
    (input : string) : result (list string) :=
  match input with
  | EmptyString =>
      match state with
      | StSpace | StWord =>
          if nonempty token || quoted then Ok [token] else Ok []
      | StQuote _ => Raise ValueError   (* No closing quotation *)
      | StEscape _ _ => Raise ValueError   (* No escaped character *)
      end
  | String nextchar rest =>
      match state with
      | StSpace =>
          if is_whitespace nextchar then
            if nonempty token || quoted
            then emit token (read_tokens StSpace EmptyString false rest)
            else read_tokens StSpace token quoted rest
          else if is_escape nextchar then
            read_tokens (StEscape nextchar None) token quoted rest
          else if is_quote nextchar then
            read_tokens (StQuote nextchar) token quoted rest
          else
            read_tokens StWord (String nextchar EmptyString) quoted rest
      | StQuote q =>
          if bool_decide (nextchar = q) then
            read_tokens StWord token true rest
          else if is_escape nextchar && is_escapedquote q then
            read_tokens (StEscape nextchar (Some q)) token true rest
          else
            read_tokens (StQuote q) (token ++ String nextchar EmptyString) true rest
      | StEscape esc escapedstate =>
          let token :=
            match escapedstate with
            | Some q =>
                if negb (bool_decide (nextchar = esc))
                   && negb (bool_decide (nextchar = q))
                then token ++ String esc EmptyString else token
            | None => token
            end in
          read_tokens (escaped_back escapedstate)
            (token ++ String nextchar EmptyString) quoted rest
      | StWord =>
          if is_whitespace nextchar then
            if nonempty token || quoted
            then emit token (read_tokens StSpace EmptyString false rest)
            else read_tokens StSpace token quoted rest
          else if is_quote nextchar then
            read_tokens (StQuote nextchar) token quoted rest
          else if is_escape nextchar then
            read_tokens (StEscape nextchar None) token quoted rest
          else
            read_tokens StWord (token ++ String nextchar EmptyString) quoted rest
      end
  end.

Definition shlex_split (s : string) : result (list string) :=
  read_tokens StSpace EmptyString false s.

(** *** The engine *)

(** [str(n)] for an [int]. *)
Definition str_int (n : Z) : string := NilZero.string_of_int (Z.to_int n).

(** [QChem.__init__] and the [Engine.__init__] it calls keep their
    arguments as attributes. *)
Record QChem := {
  executable : string;
  scratch_dir : option string;
  qcenv : option string;
  num_processors : option Z;
  num_threads : option Z;
  arguments : option (list string);
  save : bool;
  savename : option string
}.

(** The truth value of an optional string: [None] and [""] are false. *)
Definition truthy (s : option string) : bool :=
  match s with
  | Some s => nonempty s
  | None => false
  end.

Definition command (self : QChem) (inp out work_dir : string)
    (call_arguments : option (list string)) : result (list string) :=
  let cmd := [executable self] in
  let cmd := if save self then (cmd ++ ["-save"])%list else cmd in
  let cmd :=
    match arguments self with
    | Some a => (cmd ++ (a ++ default [] call_arguments))%list
    | None => cmd
    end in
  let cmd :=
    match num_processors self with
    | Some n => (cmd ++ [("-np " ++ str_int n)%string])%list
    | None => cmd
    end in
  let cmd :=
    match num_threads self with
    | Some n => (cmd ++ [("-nt " ++ str_int n)%string])%list
    | None => cmd
    end in
  let cmd :=
    if save self && truthy (savename self)
    then (cmd ++ [(" " ++ default EmptyString (savename self))%string])%list
    else cmd in
  shlex_split (String.concat " " (cmd ++ [inp; out])%list).

(** The command line of the specification, element by element:
    [<executable> [-save] [extra_args...] [-np <n>] [-nt <n>] [savename]
    <input_file> <output_file>], each optional element there exactly when
    its field is set. *)
Definition documented_command (self : QChem) (inp out : string) : list string :=
  ([executable self]
  ++ (if save self then ["-save"] else [])
  ++ default [] (arguments self)
  ++ match num_processors self with Some n => ["-np"; str_int n] | None => [] end
  ++ match num_threads self with Some n => ["-nt"; str_int n] | None => [] end
  ++ match savename self with Some s => [s] | None => [] end
  ++ [inp; out])%list.

(** The command line [command] builds when no element needs quoting. *)
Definition command_line (self : QChem) (inp out : string)
    (call_arguments : option (list string)) : list string :=
  ([executable self]
  ++ (if save self then ["-save"] else [])
  ++ match arguments self with
     | Some a => a ++ default [] call_arguments
     | None => []
     end
  ++ match num_processors self with Some n => ["-np"; str_int n] | None => [] end
  ++ match num_threads self with Some n => ["-nt"; str_int n] | None => [] end
  ++ (if save self && truthy (savename self)
      then [default EmptyString (savename self)] else [])
  ++ [inp; out])%list.

(** A word the shell would not split or unquote: not empty, and free of
    whitespace, quotes and backslashes. *)
Definition plain_char (c : ascii) : bool :=
  negb (is_whitespace c) && negb (is_quote c) && negb (is_escape c).

Fixpoint plain_chars (s : string) : bool :=
  match s with
  | EmptyString => true
  | String c s' => plain_char c && plain_chars s'
  end.

Definition plain (s : string) : bool := nonempty s && plain_chars s.

(** *** Reading the joined command

    [rest] is at a gap when it is the end of the input or opens with a
    space; an element of [cmd] tokenizes to [ts] when, read from between
    two tokens and followed by a gap, it yields the tokens [ts] and leaves
    the tokenizer between two tokens again. *)
Definition at_gap (rest : string) : Prop :=
  rest = EmptyString ∨ ∃ rest', rest = (" " ++ rest')%string.

Definition tokenizes (e : string) (ts : list string) : Prop :=
  ∀ rest, at_gap rest →
    read_tokens StSpace EmptyString false (e ++ rest)
    = foldr emit (read_tokens StSpace EmptyString false rest) ts.

(** The elements of [cmd] against the tokens they contribute. *)
Inductive tokenize_all : list string → list string → Prop :=
  | tokenize_nil : tokenize_all [] []
  | tokenize_cons e ts es ts' :
      tokenizes e ts → tokenize_all es ts' →
      tokenize_all (e :: es) (ts ++ ts')%list.

(** Engines used as examples. *)
Definition qchem_default : QChem :=
  {| executable := "qchem"; scratch_dir := None; qcenv := None;
     num_processors := None; num_threads := None; arguments := None;
     save := false; savename := None |}.

Definition qchem_savename_only : QChem :=
  {| executable := "qchem"; scratch_dir := None; qcenv := None;
     num_processors := None; num_threads := None; arguments := None;
     save := false; savename := Some "job" |}.

Definition qchem_full : QChem :=
  {| executable := "qchem"; scratch_dir := None; qcenv := None;
     num_processors := Some 4%Z; num_threads := Some 2%Z;
     arguments := Some ["-archive"];
     save := true; savename := Some "job" |}.

(** ** qchem.py: what the tasks read back *)

(** A polarizability tensor, and the position of an atom. *)
Definition tensor : Type := list (list Q).
Definition position : Type := (Q * Q * Q)%type.

(** The object [cclib.io.ccread] returns.  cclib sets an attribute only when
    the output file has the data for it, so reading an attribute that is
    not there raises [AttributeError].  [scfenergies] holds the SCF energy
    of the single-point job (in eV), the other attributes are cclib's
    arrays. *)
Record ccData := {
  scfenergies : option Q;
  moenergies : option (list (list Q));
  homos : option (list Z);
  polarizabilities : option (list tensor);
  atomcoords : option (list (list position));
  atomnos : option (list Z);
  etenergies : option (list Q);
  etoscs : option (list Q);
  etsyms : option (list string);
  etsecs : option (list string)
}.

(** [properties.py]: [Excitation.__init__(energy, oscillator_strength,
    transition_moment=None, multiplicity=None, total_energy=None,
    contributions=None)]. *)
Record Excitation := {
  energy : Q;
  oscillator_strength : Q;
  contributions : option string
}.

(** What a [parse] returns, class by class. *)
Inductive parsed :=
  | PText (text : string)
  | PEnergy (energy : option Q)
  | PFrontier (energy homo lumo : option Q)
  | PPolarizability (pol_tensor : option tensor)
  | PStructure (atoms : list (Z * position))
  | PSpectrum (excitations : list Excitation)
  | PVolume (volume : Q).

(** The collaborators outside the sources: the rendering of an input deck,
    the external process, cclib, the geometry of [QChemVolume.parse] and
    numpy. *)
Class External := {
  (** [cclib.io.ccread] on the content of a file ([None]: no such file);
      [None] when cclib does not recognise the output. *)
  ccread : option string → option ccData;
  (** [pat.search(l)] for [Tesselation\s*\.PQR\s*file]. *)
  search_marker : string → bool;
  (** The points between the two markers and the volume of their hull. *)
  hull_volume : list string → result Q;
  (** [(mtr.h * mtr.c * e / mtr.cm).convert(mtr.eV)]. *)
  wavenumber_to_eV : Q → Q;
  (** [np.sqrt]. *)
  np_sqrt : Q → Q
}.

(** [l[start:stop]] with Python's treatment of negative and out-of-range
    indices. *)
Definition py_index (len i : Z) : Z :=
  if (i <? 0)%Z then Z.max (i + len) 0 else Z.min i len.

Definition py_slice {A : Type} (l : list A) (start stop : Z) : list A :=
  let len := Z.of_nat (length l) in
  let a := py_index len start in
  let b := py_index len stop in
  take (Z.to_nat (b - a)) (drop (Z.to_nat a) l).

(** [max(l)] and [min(l)] on a list that is not empty. *)
Definition Qmax_list (x : Q) (l : list Q) : Q :=
  foldl (λ m y, if Qle_bool y m then m else y) x l.

Definition Qmin_list (x : Q) (l : list Q) : Q :=
  foldl (λ m y, if Qle_bool m y then m else y) x l.

(** The loop [for moe, h in zip(moenergies, homo_indices)]: each pass
    unpacks [moe[h : h + 2]] into [homo, lumo]. *)
Fixpoint frontier_orbitals (pairs : list (list Q * Z)) : result (list Q * list Q) :=
  match pairs with
  | [] => Ok ([], [])
  | (moe, h) :: pairs' =>
      match py_slice moe h (h + 2) with
      | [homo; lumo] =>
          match frontier_orbitals pairs' with
          | Ok (homos, lumos) => Ok (homo :: homos, lumo :: lumos)
          | Raise e => Raise e
          end
      | _ => Raise ValueError
      end
  end.

Section parse.
Context `{External}.

(** [QChemSinglePoint.parse]: [AttributeError] (no cclib object, or no
    [scfenergies]) gives [None]. *)
Definition QChemSinglePoint_parse (output : option string) : result parsed :=
  match ccread output with
  | Some data =>
      match scfenergies data with
      | Some e => Ok (PEnergy (Some e))
      | None => Ok (PEnergy None)
      end
  | None => Ok (PEnergy None)
  end.

(** [QChemSinglePointFrontier.parse]: the [try] block reads
    [scfenergies], [moenergies] and [homos] in this order, then loops;
    [except AttributeError] resets all three results. *)
Definition QChemSinglePointFrontier_parse (output : option string)
  : result parsed :=
  match ccread output with
  | Some data =>
      match scfenergies data, moenergies data, homos data with
      | Some e, Some moes, Some homo_indices =>
          match frontier_orbitals (zip moes homo_indices) with
          | Ok (h :: homos, l :: lumos) =>
              Ok (PFrontier (Some e) (Some (Qmax_list h homos))
                    (Some (Qmin_list l lumos)))
          | Ok _ => Raise ValueError   (* max() of an empty list *)
          | Raise e => Raise e
          end
      | _, _, _ => Ok (PFrontier None None None)
      end
  | None => Ok (PFrontier None None None)
  end.

(** [QChemPolarizability.parse]: the last tensor, or [None] on
    [AttributeError], wrapped in [mtr.Polarizability]. *)
Definition QChemPolarizability_parse (output : option string) : result parsed :=
  match ccread output with
  | Some data =>
      match polarizabilities data with
      | Some pols =>
          match last pols with
          | Some pol => Ok (PPolarizability (Some pol))
          | None => Raise IndexError
          end
      | None => Ok (PPolarizability None)
      end
  | None => Ok (PPolarizability None)
  end.

(** [QChemOutput.structure]: nothing catches a missing attribute. *)
Definition QChemOptimize_parse (output : option string) : result parsed :=
  match ccread output with
  | Some data =>
      match atomcoords data with
      | Some coords =>
          match last coords with
          | Some coords =>
              match atomnos data with
              | Some zs => Ok (PStructure (zip zs coords))
              | None => Raise AttributeError
              end
          | None => Raise IndexError
          end
      | None => Raise AttributeError
      end
  | None => Raise AttributeError
  end.

(** [QChemOutput.electronic_excitations].  [mtr.Excitation] is called
    with [symmetry=sym], a keyword [Excitation.__init__] does not have:
    the first excitation built raises [TypeError]. *)
Definition QChemLRTDDFT_parse (output : option string) : result parsed :=
  match ccread output with
  | Some data =>
      match etenergies data with
      | Some engs =>
          let engs := wavenumber_to_eV <$> engs in
          match etoscs data, etsyms data, etsecs data with
          | Some oscs, Some syms, Some secs =>
              match zip engs (zip oscs (zip syms secs)) with
              | [] => Ok (PSpectrum [])
              | _ :: _ => Raise TypeError
              end
          | _, _, _ => Raise AttributeError
          end
      | None => Raise AttributeError
      end
  | None => Raise AttributeError
  end.

(** [open(output, "r")] reads in text mode with universal newlines: a
    carriage return followed by a line feed, and a carriage return on its
    own, both come out as one line feed.  [text] is the decoded content of
    the file. *)
Fixpoint universal_newlines (text : string) : string :=
  match text with
  | EmptyString => EmptyString
  | String c text' =>
      if bool_decide (c = "013"%char) then
        match text' with
        | String c' text'' =>
            if bool_decide (c' = "010"%char)
            then String "010" (universal_newlines text'')
            else String "010" (universal_newlines text')
        | EmptyString => String "010" EmptyString
        end
      else String c (universal_newlines text')
  end.

(** The lines of a text that has line feeds only, each with its line
    feed. *)
Fixpoint readlines_go (line : string) (text : string) : list string :=
  match text with
  | EmptyString => if nonempty line then [line] else []
  | String c text' =>
      if bool_decide (c = "010"%char)
      then (line ++ String c EmptyString)%string :: readlines_go EmptyString text'
      else readlines_go (line ++ String c EmptyString)%string text'
  end.

(** [f.readlines()] on the file opened with [open(output, "r")]. *)
Definition readlines (text : string) : list string :=
  readlines_go EmptyString (universal_newlines text).

(** [[i for i, l in enumerate(lines) if pat.search(l)]]. *)
Definition marker_lines (lines : list string) : list nat :=
  (fst <$> filter (λ il, search_marker il.2 = true) (imap (λ i l, (i, l)) lines)).

(** [QChemVolume.parse]: exactly two marker lines are unpacked into
    [pqr_start, pqr_end]. *)
Definition QChemVolume_parse (output : option string) : result parsed :=
  match output with
  | Some text =>
      let lines := readlines text in
      match marker_lines lines with
      | [pqr_start; pqr_end] =>
          match hull_volume
                  (py_slice lines (Z.of_nat pqr_start + 1) (Z.of_nat pqr_end)) with
          | Ok v => Ok (PVolume v)
          | Raise e => Raise e
          end
      | _ => Raise ValueError
      end
  | None => Raise OSError
  end.

(** [QChemAIMD.parse]: [return "".join(f.readlines())] on the output
    file. *)
Definition QChemAIMD_parse (output : option string) : result parsed :=
  match output with
  | Some text => Ok (PText (String.concat EmptyString (readlines text)))
  | None => Raise OSError
  end.

(** [self.parse(output)], dispatched on the class of [self]. *)
Definition parse (self : qchem_task) (output : option string) : result parsed :=
  match self with
  | QChemBaseTask => Raise NotImplementedError
  | QChemAIMD => QChemAIMD_parse output
  | QChemLRTDDFT => QChemLRTDDFT_parse output
  | QChemOptimize => QChemOptimize_parse output
  | QChemPolarizability => QChemPolarizability_parse output
  | QChemVolume => QChemVolume_parse output
  | QChemSinglePoint => QChemSinglePoint_parse output
  | QChemSinglePointFrontier => QChemSinglePointFrontier_parse output
  end.

(** The output lacks what the parser of the class looks for. *)
Definition markers_absent (self : qchem_task) (output : option string) : Prop :=
  match self with
  | QChemSinglePoint =>
      ∀ data, ccread output = Some data → scfenergies data = None
  | QChemSinglePointFrontier =>
      ∀ data, ccread output = Some data →
              scfenergies data = None ∨ moenergies data = None ∨ homos data = None
  | QChemPolarizability =>
      ∀ data, ccread output = Some data → polarizabilities data = None
  | QChemOptimize =>
      ∀ data, ccread output = Some data →
              atomcoords data = None ∨ atomnos data = None
  | QChemLRTDDFT =>
      ∀ data, ccread output = Some data →
              etenergies data = None ∨ etoscs data = None
              ∨ etsyms data = None ∨ etsecs data = None
  | QChemVolume =>
      ∀ text, output = Some text → length (marker_lines (readlines text)) ≠ 2%nat
  | QChemAIMD | QChemBaseTask => False
  end.

(** The null result of the classes that have one. *)
Definition null_fallback (self : qchem_task) : option parsed :=
  match self with
  | QChemSinglePoint => Some (PEnergy None)
  | QChemSinglePointFrontier => Some (PFrontier None None None)
  | QChemPolarizability => Some (PPolarizability None)
  | _ => None
  end.

(** A result that is all there or not there at all. *)
Definition consistent (p : parsed) : Prop :=
  match p with
  | PFrontier e h l =>
      (e = None ∧ h = None ∧ l = None) ∨ (is_Some e ∧ is_Some h ∧ is_Some l)
  | _ => True
  end.
End parse.

(** ** qchem.py: running a task *)

(** [mtr.IO]: the input file, the output file and the working directory. *)
Record IO := {
  inp : string;
  out : string;
  work_dir : string
}.

(** The part of [mtr.Molecule] the tasks touch. *)
Record Molecule := {
  atomic_numbers : list Z;
  charge : Z;
  multiplicity : Z;
  electronic_excitations : option (list Excitation)
}.

(** What a task does to the outside, in the order it does it. *)
Inductive event :=
  | EvEnter (io : IO)
  | EvWrite (path : string)
  | EvExecute (io : IO) (arguments : option (list string))
  | EvParse (path : string)
  | EvExit (io : IO).

(** The state a call runs in: the settings objects by reference, the files
    on disk and the log of events. *)
Record world := {
  settings_heap : gmap nat Settings;
  files : gmap string string;
  events : list event
}.

(** The process behind [Engine.execute] and the text of an input deck
    ([str(QChemInput)] for the molecules and the settings it holds). *)
Class Process := {
  execute : QChem → IO → option (list string) → gmap string string
            → result (gmap string string);
  render : list Molecule → Settings → string
}.

(** Computations that read and update the world and may raise. *)
Definition M (A : Type) : Type := world → result A * world.

Definition ret {A : Type} (a : A) : M A := λ w, (Ok a, w).

Definition raise {A : Type} (e : exn) : M A := λ w, (Raise e, w).

Definition lift {A : Type} (r : result A) : M A := λ w, (r, w).

Definition bind {A B : Type} (m : M A) (k : A → M B) : M B :=
  λ w, match m w with
       | (Ok a, w') => k a w'
       | (Raise e, w') => (Raise e, w')
       end.

Notation "x ←@ m ;; k" := (bind m (λ x, k))
  (at level 100, m at next level, right associativity).
Notation "m ;;@ k" := (bind m (λ _, k))
  (at level 100, right associativity).

Definition log (ev : event) : M unit :=
  λ w, (Ok tt, {| settings_heap := settings_heap w;
                  files := files w;
                  events := events w ++ [ev] |}).

(** [mtr.Settings()] and [copy.deepcopy(settings)]: a new object, at a
    reference nothing else holds. *)
Definition new_settings (S : Settings) : M nat :=
  λ w, let r := fresh (dom (settings_heap w)) in
       (Ok r, {| settings_heap := <[r := S]> (settings_heap w);
                 files := files w;
                 events := events w |}).

Definition deepcopy (r : nat) : M nat :=
  λ w, match settings_heap w !! r with
       | Some d => new_settings d w
       | None => (Raise RuntimeError, w)
       end.

(** [settings[key] = v] on the object behind [r]. *)
Definition setitem_at (r : nat) (key : list string) (v : setting) : M unit :=
  λ w, match settings_heap w !! r with
       | Some d =>
           (Ok tt, {| settings_heap := <[r := setitem key v d]> (settings_heap w);
                      files := files w;
                      events := events w |})
       | None => (Raise RuntimeError, w)
       end.

(** A [defaults] method on the object behind [r]: it updates the object in
    place and returns the same reference. *)
Definition defaults_at (f : Settings → result Settings) (r : nat) : M nat :=
  λ w, match settings_heap w !! r with
       | Some d =>
           match f d with
           | Ok d' =>
               (Ok r, {| settings_heap := <[r := d']> (settings_heap w);
                         files := files w;
                         events := events w |})
           | Raise e => (Raise e, w)
           end
       | None => (Raise RuntimeError, w)
       end.

(** [s = mtr.Settings() if settings is None else copy.deepcopy(settings)]. *)
Definition private_settings (settings : option nat) : M nat :=
  match settings with
  | None => new_settings ∅
  | Some r => deepcopy r
  end.

(** [with io() as io: body]: the exit runs on every way out. *)
Definition with_io {A : Type} (io : IO) (body : M A) : M A :=
  λ w, let '(r, w') := (log (EvEnter io) ;;@ body) w in
       (r, snd (log (EvExit io) w')).

(** [mtr.QChemInput]: it keeps a reference to its settings, or the text it
    was built from. *)
Record QChemInput := {
  molecules : list Molecule;
  settings : nat;
  text : option string
}.

Section tasks.
Context `{External} `{Process}.

(** [str(inp)]. *)
Definition QChemInput_str (inp : QChemInput) : M string :=
  match text inp with
  | Some s => ret s
  | None =>
      λ w, match settings_heap w !! settings inp with
           | Some d => (Ok (render (molecules inp) d), w)
           | None => (Raise RuntimeError, w)
           end
  end.

(** [inp.write(filepath)]. *)
Definition QChemInput_write (inp : QChemInput) (filepath : string) : M unit :=
  s ←@ QChemInput_str inp ;;
  log (EvWrite filepath) ;;@
  λ w, (Ok tt, {| settings_heap := settings_heap w;
                  files := <[filepath := s]> (files w);
                  events := events w |}).

(** [QChemInput.__add__]: both inputs as text, around the job separator,
    with a new empty settings object. *)
Definition QChemInput_add (a b : QChemInput) : M QChemInput :=
  sa ←@ QChemInput_str a ;;
  sb ←@ QChemInput_str b ;;
  r ←@ new_settings ∅ ;;
  ret {| molecules := [];
         settings := r;
         text := Some (sa ++ String "010" "@@@" ++ String "010" (String "010" "")
                         ++ sb)%string |}.

(** [self.engine.execute(self.io, arguments=arguments)]. *)
Definition engine_execute (engine : QChem) (io : IO)
    (arguments : option (list string)) : M unit :=
  log (EvExecute io arguments) ;;@
  λ w, match execute engine io arguments (files w) with
       | Ok files' =>
           (Ok tt, {| settings_heap := settings_heap w;
                      files := files';
                      events := events w |})
       | Raise e => (Raise e, w)
       end.

(** [self.parse(io.out)]. *)
Definition parse_file (self : qchem_task) (path : string) : M parsed :=
  log (EvParse path) ;;@
  λ w, (parse self (files w !! path), w).

(** [QChemBaseTask.compute]. *)
Definition QChemBaseTask_compute (self : qchem_task) (engine : QChem) (io : IO)
    (molecule : Molecule) (settings : option nat)
    (arguments : option (list string)) : M parsed :=
  let io_inp := inp io in
  s ←@ private_settings settings ;;
  s ←@ defaults_at (defaults self) s ;;
  let inp := {| molecules := [molecule]; settings := s; text := None |} in
  with_io io
    (QChemInput_write inp io_inp ;;@
     engine_execute engine io arguments ;;@
     parse_file self (out io)).

(** *** [QChemLRTDDFT.compute] *)

(** [int(round(x / 2))] for an integer [x]: halves round to even. *)
Definition round_half (x : Z) : Z :=
  if Z.even x then (x / 2)%Z
  else let q := ((x - 1) / 2)%Z in if Z.even q then q else (q + 1)%Z.

(** [range(n)] and [range(a, b)]. *)
Definition range (a b : Z) : list Z :=
  (λ i, a + Z.of_nat i)%Z <$> seq 0 (Z.to_nat (b - a)).

Definition nl : string := String "010" "".

(** The [("plots", "comment")] text of [_nto_pairs]. *)
Definition plots_comment (n_alpha num_nto_pairs n_x n_y n_z : Z) : string :=
  (nl ++ "  " ++ str_int n_x ++ " -10.0 10.0" ++ nl
   ++ "  " ++ str_int n_y ++ " -10.0 10.0" ++ nl
   ++ "  " ++ str_int n_z ++ " -10.0 10.0" ++ nl
   ++ "  " ++ str_int (2 * num_nto_pairs) ++ " 0 0 0" ++ nl ++ "  "
   ++ String.concat " "
        ((λ i, str_int (n_alpha + i)) <$> range (- num_nto_pairs + 1) (num_nto_pairs + 1))
  )%string.

(** One pass of the loop of [_nto_pairs], for root [i]. *)
Definition nto_pairs_step (settings : nat) (n_alpha num_nto_pairs n_x n_y n_z : Z)
    (inp : QChemInput) (i : Z) : M QChemInput :=
  s ←@ deepcopy settings ;;
  setitem_at s ["rem"; "scf_guess"] (SStr "read") ;;@
  setitem_at s ["rem"; "skip_cis_rpa"] (SBool true) ;;@
  setitem_at s ["rem"; "nto_pairs"] (SBool true) ;;@
  setitem_at s ["rem"; "make_cube_files"] (SStr "ntos") ;;@
  setitem_at s ["rem"; "cubefile_state"] (SInt (i + 1)) ;;@
  setitem_at s ["plots"; "comment"]
    (SStr (plots_comment n_alpha num_nto_pairs n_x n_y n_z)) ;;@
  QChemInput_add inp {| molecules := []; settings := s; text := None |}.

Fixpoint nto_pairs_loop (settings : nat) (n_alpha num_nto_pairs n_x n_y n_z : Z)
    (inp : QChemInput) (roots : list Z) : M QChemInput :=
  match roots with
  | [] => ret inp
  | i :: roots' =>
      inp ←@ nto_pairs_step settings n_alpha num_nto_pairs n_x n_y n_z inp i ;;
      nto_pairs_loop settings n_alpha num_nto_pairs n_x n_y n_z inp roots'
  end.

(** [range(settings["rem", "cis_n_roots"])]: an [int] (or a [bool], which
    is one). *)
Definition cis_n_roots (settings : nat) : M (list Z) :=
  λ w, match settings_heap w !! settings with
       | Some d =>
           match d !! ["rem"; "cis_n_roots"] with
           | Some (SInt n) => (Ok (range 0 n), w)
           | Some (SBool b) => (Ok (range 0 (if b then 1 else 0)), w)
           | Some (SStr _) => (Raise TypeError, w)
           | None => (Raise KeyError, w)
           end
       | None => (Raise RuntimeError, w)
       end.

Definition _nto_pairs (molecule : Molecule) (settings : nat)
    (num_nto_pairs n_x n_y n_z : Z) : M QChemInput :=
  let n_alpha :=
    round_half (foldr Z.add 0%Z (atomic_numbers molecule) + charge molecule) in
  r ←@ new_settings ∅ ;;
  let inp := {| molecules := []; settings := r; text := None |} in
  roots ←@ cis_n_roots settings ;;
  nto_pairs_loop settings n_alpha num_nto_pairs n_x n_y n_z inp roots.

Definition QChemLRTDDFT_compute (engine : QChem) (io : IO) (molecule : Molecule)
    (settings : option nat) (num_nto_pairs n_x n_y n_z : Z) : M Molecule :=
  let io_inp := inp io in
  s ←@ private_settings settings ;;
  s ←@ defaults_at (defaults QChemLRTDDFT) s ;;
  let inp := {| molecules := [molecule]; settings := s; text := None |} in
  inp ←@ (if (0 <? num_nto_pairs)%Z
          then (pairs ←@ _nto_pairs molecule s num_nto_pairs n_x n_y n_z ;;
                QChemInput_add inp pairs)
          else ret inp) ;;
  with_io io
    (QChemInput_write inp io_inp ;;@
     engine_execute engine io None ;;@
     excitations ←@ parse_file QChemLRTDDFT (out io) ;;
     ret {| atomic_numbers := atomic_numbers molecule;
            charge := charge molecule;
            multiplicity := multiplicity molecule;
            electronic_excitations :=
              match excitations with
              | PSpectrum l => Some l
              | _ => electronic_excitations molecule
              end |}).

(** *** [QChemKoopmanError.compute] *)

(** [copy.deepcopy(molecule)] with [charge += d] and
    [multiplicity = multiplicity % 2 + 1]. *)
Definition ionized (molecule : Molecule) (d : Z) : Molecule :=
  {| atomic_numbers := atomic_numbers molecule;
     charge := (charge molecule + d)%Z;
     multiplicity := (multiplicity molecule mod 2 + 1)%Z;
     electronic_excitations := electronic_excitations molecule |}.

(** Modelled from the spec: [Workflow(neutral_sp, cation_sp,
    anion_sp).compute()], absent from the sources, "executes each task"
    with its requirements and "returns a mapping from each task's name to
    its result"; the three tasks do not depend on one another and are run
    here in the order they are given. *)
Definition Workflow_compute (engine : QChem) (gs_io cation_io anion_io : IO)
    (molecule cation anion : Molecule) (input_settings : nat)
  : M (parsed * parsed * parsed) :=
  neutral ←@ QChemBaseTask_compute QChemSinglePointFrontier engine gs_io
               molecule (Some input_settings) None ;;
  cation ←@ QChemBaseTask_compute QChemSinglePoint engine cation_io
              cation (Some input_settings) None ;;
  anion ←@ QChemBaseTask_compute QChemSinglePoint engine anion_io
             anion (Some input_settings) None ;;
  ret (neutral, cation, anion).

(** The arithmetic on the three results; an energy that is [None] makes
    the first operation on it raise [TypeError]. *)
Definition koopman_error (neutral homo lumo cation anion : option Q) : result Q :=
  match neutral, anion, cation, homo with
  | Some neutral, Some anion, Some cation, Some homo =>
      let ea := (neutral - anion)%Q in
      let ip := (cation - neutral)%Q in
      let J_squared := ((ip + homo) ^ 2)%Q in
      if Qlt_le_dec 0 ea then
        match lumo with
        | Some lumo => Ok (np_sqrt (J_squared + (ea + lumo) ^ 2)%Q)
        | None => Raise TypeError
        end
      else Ok (np_sqrt J_squared)
  | _, _, _, _ => Raise TypeError
  end.

(** [QChemKoopmanError.compute] up to [out = wf.compute()]. *)
Definition QChemKoopmanError_single_points (engine : QChem)
    (gs_io cation_io anion_io : IO) (molecule : Molecule)
    (settings : option nat) : M (parsed * parsed * parsed) :=
  s ←@ private_settings settings ;;
  input_settings ←@ defaults_at (λ S, Ok (QChemKoopmanError_defaults S)) s ;;
  let cation := ionized molecule 1 in
  let anion := ionized molecule (-1) in
  Workflow_compute engine gs_io cation_io anion_io
    molecule cation anion input_settings.

Definition QChemKoopmanError_compute (engine : QChem)
    (gs_io cation_io anion_io : IO) (molecule : Molecule)
    (settings : option nat) : M Q :=
  out ←@ QChemKoopmanError_single_points engine gs_io cation_io anion_io
           molecule settings ;;
  match out with
  | (PFrontier neutral homo lumo, PEnergy cation, PEnergy anion) =>
      lift (koopman_error neutral homo lumo cation anion)
  | _ => raise TypeError
  end.
End tasks.

(** *** Stub collaborators for the examples

    The stub process copies the name of the input file into the output
    file; the stub cclib reads a neutral molecule with energy 10 and
    frontier orbitals -5 and 1 out of ["gs.in"], a cation with energy 12 out
    of ["cation.in"], an anion with energy 9 out of ["anion.in"] and nothing
    out of anything else. *)
Definition no_data : ccData :=
  {| scfenergies := None; moenergies := None; homos := None;
     polarizabilities := None; atomcoords := None; atomnos := None;
     etenergies := None; etoscs := None; etsyms := None; etsecs := None |}.

Definition energy_data (e : Q) (moes : option (list (list Q)))
    (hs : option (list Z)) : ccData :=
  {| scfenergies := Some e; moenergies := moes; homos := hs;
     polarizabilities := None; atomcoords := None; atomnos := None;
     etenergies := None; etoscs := None; etsyms := None; etsecs := None |}.

Definition stub_ccread (output : option string) : option ccData :=
  match output with
  | Some s =>
      if bool_decide (s = "gs.in")
      then Some (energy_data 10 (Some [[-7; -5; 1; 3]%Q]) (Some [1%Z]))
      else if bool_decide (s = "cation.in") then Some (energy_data 12 None None)
      else if bool_decide (s = "anion.in") then Some (energy_data 9 None None)
      else if bool_decide (s = "anion_high.in") then Some (energy_data 11 None None)
      else if bool_decide (s = "empty.in") then Some no_data
      else None
  | None => None
  end.

Definition stub_external : External :=
  {| ccread := stub_ccread;
     search_marker := λ _, false;
     hull_volume := λ _, Raise ValueError;
     wavenumber_to_eV := λ e, e;
     np_sqrt := λ x, x |}.

Definition stub_process : Process :=
  {| execute := λ _ io _ fs, Ok (<[out io := inp io]> fs);
     render := λ _ _, EmptyString |}.


Definition water : Molecule :=
  {| atomic_numbers := [8; 1; 1]%Z; charge := 0; multiplicity := 1;
     electronic_excitations := None |}.

Definition gs_io : IO := {| inp := "gs.in"; out := "gs.out"; work_dir := "." |}.
Definition cation_io : IO :=
  {| inp := "cation.in"; out := "cation.out"; work_dir := "." |}.
Definition anion_io : IO :=
  {| inp := "anion.in"; out := "anion.out"; work_dir := "." |}.
Definition anion_high_io : IO :=
  {| inp := "anion_high.in"; out := "anion_high.out"; work_dir := "." |}.
Definition empty_io : IO :=
  {| inp := "empty.in"; out := "empty.out"; work_dir := "." |}.

(** A world with one settings object, the caller's, behind reference 0. *)
Definition caller_world (S : Settings) : world :=
  {| settings_heap := {[ 0%nat := S ]}; files := ∅; events := [] |}.



(** *** Settings objects a call leaves alone

    [keeps old m post]: from a world that holds the settings objects [old]
    as they are, [m] ends in such a world again, and its result, when it
    returns one, satisfies [post]. *)
Definition keeps {A : Type} (old : gmap nat Settings) (m : M A) (post : A → Prop)
  : Prop :=
  ∀ w, old ⊆ settings_heap w →
       old ⊆ settings_heap (snd (m w)) ∧ ∀ a, fst (m w) = Ok a → post a.

(** ** qchem.py: [QChemMinimizeKoopmanError.defaults] *)

(** The task is a plain [Task], not a [QChemBaseTask]; its [defaults] tests
    every key on its own, the exchange as well. *)
Definition QChemMinimizeKoopmanError_defaults (settings : Settings) : Settings :=
  let settings :=
    if negb (contains settings rem_basis)
    then setitem rem_basis (SStr "3-21G") settings else settings in
  let settings :=
    if negb (contains settings rem_jobtype)
    then setitem rem_jobtype (SStr "sp") settings else settings in
  let settings :=
    if negb (contains settings rem_exchange)
    then setitem rem_exchange (SStr "gen") settings else settings in
  let settings :=
    if negb (contains settings ["rem"; "lrc_dft"])
    then setitem ["rem"; "lrc_dft"] (SBool true) settings else settings in
  let settings :=
    if negb (contains settings ["rem"; "src_dft"])
    then setitem ["rem"; "src_dft"] (SInt 2) settings else settings in
  settings.

(** The values it writes. *)
Definition QChemMinimizeKoopmanError_table : Settings :=
  list_to_map
    [(rem_basis, SStr "3-21G"); (rem_jobtype, SStr "sp");
     (rem_exchange, SStr "gen"); (["rem"; "lrc_dft"], SBool true);
     (["rem"; "src_dft"], SInt 2)].

(** ** qchem.py: the list [cmd] of [QChem.command] *)

(** [cmd] as [command] has built it when it adds the two files and joins
    the elements. *)
Definition command_cmd (self : QChem) (call_arguments : option (list string))
  : list string :=
  let cmd := [executable self] in
  let cmd := if save self then (cmd ++ ["-save"])%list else cmd in
  let cmd :=
    match arguments self with
    | Some a => (cmd ++ (a ++ default [] call_arguments))%list
    | None => cmd
    end in
  let cmd :=
    match num_processors self with
    | Some n => (cmd ++ [("-np " ++ str_int n)%string])%list
    | None => cmd
    end in
  let cmd :=
    match num_threads self with
    | Some n => (cmd ++ [("-nt " ++ str_int n)%string])%list
    | None => cmd
    end in
  let cmd :=
    if save self && truthy (savename self)
    then (cmd ++ [(" " ++ default EmptyString (savename self))%string])%list
    else cmd in
  cmd.

(** A text in which the character [q] does not occur. *)
Fixpoint free_of (q : ascii) (s : string) : bool :=
  match s with
  | EmptyString => true
  | String c s' => negb (bool_decide (c = q)) && free_of q s'
  end.

(** ** Further stub collaborators

    A cclib that reads a helium atom in a minimal basis (one orbital, and it
    is occupied) out of every file, and one that reads a TDDFT output with
    no excited state. *)
Definition helium_external : External :=
  {| ccread := λ _, Some (energy_data (-77) (Some [[-24]%Q]) (Some [0%Z]));
     search_marker := λ _, false;
     hull_volume := λ _, Raise ValueError;
     wavenumber_to_eV := λ e, e;
     np_sqrt := λ x, x |}.

Definition no_roots_data : ccData :=
  {| scfenergies := Some 10%Q; moenergies := None; homos := None;
     polarizabilities := None; atomcoords := None; atomnos := None;
     etenergies := Some []; etoscs := Some []; etsyms := Some [];
     etsecs := Some [] |}.

Definition no_roots_external : External :=
  {| ccread := λ _, Some no_roots_data;
     search_marker := λ _, false;
     hull_volume := λ _, Raise ValueError;
     wavenumber_to_eV := λ e, e;
     np_sqrt := λ x, x |}.

(** ** The world after a call *)




(** ** qchem.py: the jobs [_nto_pairs] adds *)


(** The text [QChemInput.__add__] puts between two jobs. *)
Definition job_separator : string :=
  String "010" "@@@" ++ String "010" (String "010" "").

(** The number of alpha electrons [_nto_pairs] works with. *)
Definition n_alpha (molecule : Molecule) : Z :=
  round_half (foldr Z.add 0%Z (atomic_numbers molecule) + charge molecule).

(** [str(inp)] is [acc] in the world [w]: the text the input was built
    from, or the rendering of the settings it refers to. *)
Definition reads `{Process} (inp : QChemInput) (w : world) (acc : string) : Prop :=
  text inp = Some acc
  ∨ (text inp = None
     ∧ ∃ d, settings_heap w !! settings inp = Some d
            ∧ acc = render (molecules inp) d).


(** ** qchem.py: [QChemInput.__init__] and [_block_str] *)

(** [x or y] on an optional list and on an optional [int]: [None], the
    empty list and [0] are false. *)
Definition or_list {A : Type} (x : option (list A)) (y : list A) : list A :=
  match x with
  | Some (a :: l) => a :: l
  | _ => y
  end.

Definition or_int (x : option Z) (y : Z) : Z :=
  match x with
  | Some n => if (n =? 0)%Z then y else n
  | None => y
  end.

(** The charges and multiplicities [QChemInput.__init__] keeps. *)
Record QChemInput_totals := {
  charges : list Z;
  multiplicities : list Z;
  total_charge : Z;
  total_multiplicity : Z
}.

Definition QChemInput_init_totals (molecules : list Molecule)
    (charges multiplicities : option (list Z))
    (total_charge total_multiplicity : option Z) : QChemInput_totals :=
  let charges := or_list charges (charge <$> molecules) in
  let multiplicities := or_list multiplicities (multiplicity <$> molecules) in
  let total_charge := or_int total_charge (foldr Z.add 0%Z charges) in
  let total_multiplicity :=
    or_int total_multiplicity (total_charge mod 2 + 1)%Z in
  {| charges := charges; multiplicities := multiplicities;
     total_charge := total_charge; total_multiplicity := total_multiplicity |}.

(** [f"{v}"] for a value of the settings. *)
Definition str_setting (v : setting) : string :=
  match v with
  | SStr s => s
  | SInt n => str_int n
  | SBool true => "True"
  | SBool false => "False"
  end.

(** [" " * n]: empty when [n] is not positive. *)
Definition blanks (n : Z) : string :=
  string_of_list_ascii (replicate (Z.to_nat n) " "%char).

(** [len(s)]: the number of characters. *)
Definition len (s : string) : Z := Z.of_nat (String.length s).

(** [_block_str(block_name=block_name, **block_params)], the call
    [_block_to_str] makes; the keyword arguments are the items of a [dict],
    in its order.  A parameter that is itself named [block_name] gives the
    first argument a second value, and the call raises [TypeError] before
    the body runs; in the body [max] of no key at all raises
    [ValueError]. *)
Definition _block_str (block_name : string)
    (block_params : list (string * setting)) : result string :=
  if bool_decide ("block_name" ∈ (block_params.*1)) then Raise TypeError
  else
    match block_params with
    | [] => Raise ValueError
    | kv :: kvs =>
        let longest_key_length :=
          foldl Z.max (len kv.1) ((λ kv, len kv.1) <$> kvs) in
        Ok ("$" ++ block_name ++ nl
            ++ String.concat ""
                 ((λ kv, "  " ++ kv.1
                         ++ blanks (longest_key_length - len kv.1 + 1)
                         ++ str_setting kv.2 ++ nl) <$> block_params)
            ++ "$end" ++ nl)
    end.

(** * Properties *)

(** ** [MaxLIPOTR]: memoization *)

Section MaxLIPOTR_memo.
Context {T : Type} `{Countable T} {W : Type}.
Implicit Types (self : MaxLIPOTR T W) (st : memo T W) (args : list T).


(** After an evaluation at [args] the cache holds the returned value. *)
Lemma memoize_cached self args st :
  cache (snd (_evaluate_objective self args st)) !! args
  = Some (fst (_evaluate_objective self args st)).
Proof.
  unfold _evaluate_objective, memoize.
  destruct (cache st !! args) as [y|] eqn:Hc; simpl; [done|].
  destruct (objective_function self args (objective_state st)) as [y w]; simpl.
  apply lookup_insert_eq.
Qed.

(** The cache only grows: an entry, once made, is kept as it is. *)
Lemma memoize_keeps self args st k y :
  cache st !! k = Some y →
  cache (snd (_evaluate_objective self args st)) !! k = Some y.
Proof.
  intros Hk. unfold _evaluate_objective, memoize.
  destruct (cache st !! args) as [y'|] eqn:Hc; simpl; [done|].
  destruct (objective_function self args (objective_state st)) as [y' w]; simpl.
  rewrite lookup_insert_ne; [done|]. intros ->. congruence.
Qed.

End MaxLIPOTR_memo.


(** ** [MaxLIPOTR]: the search *)

Section MaxLIPOTR_search.
Context {T : Type} `{Countable T} {W : Type}.
Variable leb : T → T → bool.
Variable propose :
  direction → list T → list T → T → list (@observation T) → list T.
Hypothesis leb_total : ∀ a b, leb a b = true ∨ leb b a = true.
Hypothesis leb_trans : ∀ a b c, leb a b = true → leb b c = true → leb a c = true.

Lemma as_good_refl d a : as_good leb d a a.
Proof. destruct d; simpl; by destruct (leb_total a a). Qed.

Lemma as_good_trans d a b c :
  as_good leb d a b → as_good leb d b c → as_good leb d a c.
Proof. destruct d; simpl; eauto. Qed.

Lemma better_as_good d a b : better leb d a b = true → as_good leb d a b.
Proof.
  unfold better. destruct d; simpl; intros Hb; apply negb_true_iff in Hb.
  - destruct (leb_total a b); congruence.
  - destruct (leb_total a b); congruence.
Qed.

Lemma not_better_as_good d a b : better leb d a b = false → as_good leb d b a.
Proof.
  unfold better. destruct d; simpl; intros Hb; by apply negb_false_iff in Hb.
Qed.

(** The observation kept is one of those seen, and none seen is better. *)
Lemma get_best_function_eval_spec d best obs :
  let o := get_best_function_eval leb d best obs in
  o ∈ best :: obs ∧ ∀ o', o' ∈ best :: obs → as_good leb d (snd o) (snd o').
Proof.
  revert best. induction obs as [|o1 obs IH]; intros best; simpl.
  - split; [by left|]. intros o' ->%list_elem_of_singleton. apply as_good_refl.
  - destruct (IH (if better leb d (snd o1) (snd best) then o1 else best))
      as [Hin Hbest].
    destruct (better leb d (snd o1) (snd best)) eqn:Hb.
    + split.
      * apply elem_of_cons in Hin as [->|Hin]; [by right; left|by do 2 right].
      * intros o' [->|Ho']%elem_of_cons.
        -- eapply as_good_trans; [apply Hbest; by left|]. by apply better_as_good.
        -- apply Hbest. apply elem_of_cons in Ho' as [->|Ho']; [by left|by right].
    + split.
      * apply elem_of_cons in Hin as [->|Hin]; [by left|by do 2 right].
      * intros o' [->|Ho']%elem_of_cons; [apply Hbest; by left|].
        apply elem_of_cons in Ho' as [->|Ho'].
        -- eapply as_good_trans; [apply Hbest; by left|].
           by apply not_better_as_good.
        -- apply Hbest. by right.
Qed.

(** The search makes [n] more observations, each of them the memoized
    value at its coordinates. *)
Lemma global_function_search_length {S : Type} d lo hi eps
    (f : list T → S → T * S) n obs st :
  length (fst (global_function_search propose d lo hi eps f n obs st))
  = (length obs + n)%nat.
Proof.
  revert obs st. induction n as [|n IH]; intros obs st; simpl; [lia|].
  destruct (f (propose d lo hi eps obs) st) as [y st'].
  rewrite IH, length_app. simpl. lia.
Qed.

Lemma global_function_search_cached (self : MaxLIPOTR T W) d lo hi eps n obs st :
  (∀ o, o ∈ obs → cache st !! fst o = Some (snd o)) →
  let r := global_function_search propose d lo hi eps
             (_evaluate_objective self) n obs st in
  ∀ o, o ∈ fst r → cache (snd r) !! fst o = Some (snd o).
Proof.
  revert obs st. induction n as [|n IH]; intros obs st Hobs; simpl; [done|].
  pose proof (memoize_cached self (propose d lo hi eps obs) st) as Hc.
  pose proof (memoize_keeps self (propose d lo hi eps obs) st) as Hk.
  destruct (_evaluate_objective self (propose d lo hi eps obs) st) as [y st'].
  simpl in Hc, Hk. apply IH.
  intros o [Ho| ->%list_elem_of_singleton]%elem_of_app; [|done].
  apply Hk. by apply Hobs.
Qed.
End MaxLIPOTR_search.

(** C1 (as the code has it). For bounds that dlib accepts and a budget of at
    least one evaluation, [run] performs a global MINIMIZATION: it returns
    one of the observations made, none of the observations has a lower
    value, and the value returned is the memoized objective value at the
    coordinates returned. *)
Theorem run_returns_lowest_observed {T : Type} `{Countable T} {W : Type}
    (leb : T → T → bool)
    (propose : direction → list T → list T → T → list (@observation T) → list T)
    (self : MaxLIPOTR T W) (x_min x_max : pyval T) (lo hi : list T)
    (num_evals : nat) (epsilon : T) (st : memo T W) :
  (∀ a b, leb a b = true ∨ leb b a = true) →
  (∀ a b c, leb a b = true → leb b c = true → leb a c = true) →
  as_vector (as_bound_list x_min) = Some lo →
  as_vector (as_bound_list x_max) = Some hi →
  length lo = length hi →
  (0 < num_evals)%nat →
  let r := run leb propose self x_min x_max num_evals epsilon st in
  returns_best_observed leb Minimize (fst r)
    (run_observations propose self x_min x_max num_evals epsilon st)
  ∧ ∀ o, fst r = Ok o → cache (snd r) !! fst o = Some (snd o).
Proof.
  intros Htotal Htrans Hlo Hhi Hlen Hn r. subst r.
  unfold run, find_min_global, find_global, run_observations.
  rewrite Hlo, Hhi. rewrite decide_True by done.
  pose proof (global_function_search_length propose Minimize lo hi epsilon
                (_evaluate_objective self) num_evals [] st) as Hlength.
  pose proof (global_function_search_cached propose self Minimize lo hi epsilon
                num_evals [] st) as Hcached.
  destruct (global_function_search propose Minimize lo hi epsilon
              (_evaluate_objective self) num_evals [] st) as [obs st'] eqn:Hs.
  simpl in *.
  destruct obs as [|o obs]; [simpl in Hlength; lia|]. simpl.
  destruct (get_best_function_eval_spec leb Htotal Htrans Minimize o obs)
    as [Hin Hbest].
  split.
  - exists (get_best_function_eval leb Minimize o obs). split; [done|].
    split; [done|]. intros o' Ho'. by apply Hbest.
  - intros o0 [= <-]. apply Hcached; [|done].
    intros ? Hnil. by apply elem_of_nil in Hnil.
Qed.

Lemma run_returns_lowest_observed_witness :
  let r := run Z.leb midpoint_rule parabola (PNum 0%Z) (PNum 4%Z) 3 0%Z (memo_init tt) in
  returns_best_observed Z.leb Minimize (fst r)
    (run_observations midpoint_rule parabola (PNum 0%Z) (PNum 4%Z) 3 0%Z (memo_init tt))
  ∧ ∀ o, fst r = Ok o → cache (snd r) !! fst o = Some (snd o).
Proof.
  apply (run_returns_lowest_observed Z.leb midpoint_rule parabola
           (PNum 0%Z) (PNum 4%Z) [0%Z] [4%Z] 3 0%Z (memo_init tt)).
  - intros a b. lia.
  - intros a b c. lia.
  - reflexivity.
  - reflexivity.
  - reflexivity.
  - lia.
Defined.

(** C1 (as stated) fails. On [(x - 2) ** 2] over [[0, 4]] with three
    evaluations the observations are 4 at 0, 4 at 4 and 0 at 2; [run]
    returns [([2], 0)], the lowest of them, not the highest. *)
Lemma run_not_highest_observed :
  fst (run Z.leb midpoint_rule parabola (PNum 0%Z) (PNum 4%Z) 3 0%Z (memo_init tt))
  = Ok ([2%Z], 0%Z)
  ∧ ¬ returns_best_observed Z.leb Maximize
        (fst (run Z.leb midpoint_rule parabola (PNum 0%Z) (PNum 4%Z) 3 0%Z (memo_init tt)))
        (run_observations midpoint_rule parabola (PNum 0%Z) (PNum 4%Z) 3 0%Z (memo_init tt)).
Proof.
  split; [reflexivity|].
  intros (o & Ho & _ & Hmax).
  vm_compute in Ho. injection Ho as <-.
  specialize (Hmax ([0%Z], 4%Z)). simpl in Hmax.
  assert (Hin : ([0%Z], 4%Z) ∈
                run_observations midpoint_rule parabola (PNum 0%Z) (PNum 4%Z) 3 0%Z
                  (memo_init tt)).
  { vm_compute. apply list_elem_of_here. }
  specialize (Hmax Hin). discriminate Hmax.
Qed.

(** ** [MaxLIPOTR.run]: the bounds handed to dlib *)

Section MaxLIPOTR_bounds.
Context {T : Type}.
Implicit Types (x : T) (xs : list T).

(** A scalar bound becomes a one-dimensional vector. *)
Lemma as_bound_list_scalar x :
  as_vector (as_bound_list (PNum x)) = Some [x].
Proof. reflexivity. Qed.

(** A [list] of numbers is passed on as it is. *)
Lemma as_bound_list_list xs :
  as_vector (as_bound_list (PList (PNum <$> xs))) = Some xs.
Proof.
  unfold as_bound_list, as_vector. by apply mapM_fmap_Some.
Qed.

(** Any other sequence is wrapped like a scalar, and dlib rejects it. *)
Lemma as_bound_list_tuple (vs : list (pyval T)) :
  as_bound_list (PTuple vs) = PList [PTuple vs]
  ∧ as_vector (as_bound_list (PTuple vs)) = None.
Proof. split; reflexivity. Qed.
End MaxLIPOTR_bounds.

(** C6 at a sequence that is not a [list]: the bounds [(-5, -5)] and
    [(5, 5)] are each wrapped into a one-element list holding the tuple, and
    the search raises instead of running in two dimensions. *)
Lemma run_tuple_bounds :
  let x_min := PTuple [PNum (-5)%Z; PNum (-5)%Z] in
  let x_max := PTuple [PNum 5%Z; PNum 5%Z] in
  as_bound_list x_min = PList [x_min] ∧ as_bound_list x_max = PList [x_max]
  ∧ fst (run Z.leb midpoint_rule parabola x_min x_max 10 0%Z (memo_init tt))
    = Raise TypeError
  ∧ calls (snd (run Z.leb midpoint_rule parabola x_min x_max 10 0%Z (memo_init tt)))
    = [].
Proof. repeat split; reflexivity. Qed.

(** ** [Task.requires] *)

(** C8. After [t.requires(a1, k1)] then [t.requires(a2, k2)] the recorded
    requirements are exactly [(a2, k2)]: the task is the one a single call
    [t.requires(a2, k2)] gives, with nothing of the first call left, and
    its name and handlers are untouched. *)
Theorem requires_replaces {Handler Dep : Type} (t : Task Handler Dep)
    (a1 a2 : list Dep) (k1 k2 : gmap string Dep) :
  requirements (requires (requires t a1 k1) a2 k2) = (a2, k2)
  ∧ requires (requires t a1 k1) a2 k2 = requires t a2 k2
  ∧ name (requires (requires t a1 k1) a2 k2) = name t
  ∧ handlers (requires (requires t a1 k1) a2 k2) = handlers t.
Proof. by destruct t. Qed.

(** The same on the task object behind a reference [r], with calls on
    other tasks in between. *)
Lemma requires_at_lookup {Handler Dep : Type} (tasks : gmap nat (Task Handler Dep))
    (r : nat) (a : list Dep) (k : gmap string Dep) :
  requires_at r a k tasks !! r = (λ t, requires t a k) <$> (tasks !! r).
Proof.
  unfold requires_at. destruct (tasks !! r) as [t|] eqn:Hr.
  - by rewrite lookup_insert_eq.
  - by rewrite Hr.
Qed.

Lemma requires_at_lookup_ne {Handler Dep : Type}
    (tasks : gmap nat (Task Handler Dep)) (r r' : nat) (a : list Dep)
    (k : gmap string Dep) :
  r ≠ r' → requires_at r' a k tasks !! r = tasks !! r.
Proof.
  intros Hne. unfold requires_at. destruct (tasks !! r') as [t|]; [|done].
  by rewrite lookup_insert_ne.
Qed.

Lemma requires_at_replaces {Handler Dep : Type} (tasks : gmap nat (Task Handler Dep))
    (r r' : nat) (a1 a2 a' : list Dep) (k1 k2 k' : gmap string Dep) :
  r ≠ r' →
  requirements <$>
    (requires_at r a2 k2 (requires_at r' a' k' (requires_at r a1 k1 tasks)) !! r)
  = (λ _, (a2, k2)) <$> (tasks !! r).
Proof.
  intros Hne.
  rewrite requires_at_lookup, requires_at_lookup_ne, requires_at_lookup by done.
  by destruct (tasks !! r).
Qed.

(** ** The [defaults] of the Q-Chem tasks *)

Example strip_lower_thermal :
  strip (lower "  Thermal
") = "thermal" ∧ strip (lower "THERMAL") = "thermal"
  ∧ strip (lower (String "160" "thermal")) = "thermal"
  ∧ strip (lower (String "133" "Thermal")) = "thermal"
  ∧ strip (lower "random") ≠ "thermal".
Proof. repeat split; [reflexivity..|discriminate]. Qed.

(** A no-break space around the word is stripped like any blank, so the
    temperature is filled in. *)
Example defaults_thermal_no_break_space :
  QChemAIMD_defaults {[ ["rem"; "aimd_init_veloc"] := SStr (String "160" "Thermal ") ]}
  = Ok (<[ ["rem"; "aimd_temp"] := SInt 300 ]>
          (<[ ["rem"; "aimd_steps"] := SInt 10 ]>
             (<[ ["rem"; "time_step"] := SInt 1 ]>
                (<[ rem_jobtype := SStr "aimd" ]>
                   (<[ rem_basis := SStr "3-21G" ]>
                      (<[ rem_exchange := SStr "HF" ]>
                         {[ ["rem"; "aimd_init_veloc"]
                            := SStr (String "160" "Thermal ") ]})))))).
Proof. reflexivity. Qed.

Lemma contains_lookup (s : Settings) (k : list string) :
  contains s k = match s !! k with Some _ => true | None => false end.
Proof. unfold contains. by destruct (s !! k). Qed.

(** A fill leaves every key that is there alone and adds its own key when
    it is missing. *)
Lemma lookup_fill (k : list string) (v : setting) (s : Settings)
    (k' : list string) :
  (if negb (contains s k) then setitem k v s else s) !! k'
  = match s !! k' with
    | Some x => Some x
    | None => if bool_decide (k = k') then Some v else None
    end.
Proof.
  rewrite contains_lookup. unfold setitem.
  destruct (s !! k) as [x|] eqn:Hk; simpl.
  - destruct (s !! k') eqn:Hk'; [done|]. case_bool_decide; [congruence|done].
  - rewrite lookup_insert. case_decide as Hd.
    + subst. rewrite Hk. by rewrite bool_decide_eq_true_2.
    + rewrite bool_decide_eq_false_2 by done. by destruct (s !! k').
Qed.

(** The same under a further test [g], written after or before the test
    on the key itself. *)
Lemma lookup_fill_guarded (g : bool) (k : list string) (v : setting)
    (s : Settings) (k' : list string) :
  (if negb (contains s k) && g then setitem k v s else s) !! k'
  = match s !! k' with
    | Some x => Some x
    | None => if bool_decide (k = k') && g then Some v else None
    end.
Proof.
  destruct g.
  - rewrite !andb_true_r. apply lookup_fill.
  - rewrite !andb_false_r. by destruct (s !! k').
Qed.

Lemma lookup_fill_guarded_l (g : bool) (k : list string) (v : setting)
    (s : Settings) (k' : list string) :
  (if g && negb (contains s k) then setitem k v s else s) !! k'
  = match s !! k' with
    | Some x => Some x
    | None => if bool_decide (k = k') && g then Some v else None
    end.
Proof. rewrite andb_comm. apply lookup_fill_guarded. Qed.

(** A chain of fills is the table of its values laid under the settings. *)
Lemma lookup_fill_all (l : list (list string * setting)) (s : Settings)
    (k : list string) :
  foldl fill_step s l !! k
  = match s !! k with
    | Some x => Some x
    | None => (list_to_map l : Settings) !! k
    end.
Proof.
  revert s. induction l as [|[k0 v0] l IH]; intros s; simpl.
  - by destruct (s !! k).
  - rewrite IH. unfold fill_step. simpl. rewrite lookup_fill.
    destruct (s !! k) as [x|]; [done|].
    rewrite lookup_insert. case_bool_decide; case_decide; done.
Qed.

(** A chain that opens with the exchange / method test and goes on with
    plain fills. *)
Lemma lookup_exchange_chain (ex : setting) (l : list (list string * setting))
    (S : Settings) (k : list string) :
  foldl fill_step
    (if negb (contains S rem_exchange) && negb (contains S rem_method)
     then setitem rem_exchange ex S else S) l !! k
  = match S !! k with
    | Some x => Some x
    | None =>
        if bool_decide (rem_exchange = k) && negb (contains S rem_method)
        then Some ex else (list_to_map l : Settings) !! k
    end.
Proof.
  rewrite lookup_fill_all, lookup_fill_guarded.
  destruct (S !! k); [done|].
  by destruct (bool_decide (rem_exchange = k) && negb (contains S rem_method)).
Qed.

(** The chain of tests of a [defaults] method, read as a fold of
    [fill_step] over the table of its plain fills. *)
Lemma fill_step_eq (s : Settings) (k : list string) (v : setting) :
  (if negb (contains s k) then setitem k v s else s) = fill_step s (k, v).
Proof. reflexivity. Qed.

Lemma foldl_step {A B : Type} (f : A → B → A) (a : A) (x : B) (l : list B) :
  foldl f (f a x) l = foldl f a (x :: l).
Proof. reflexivity. Qed.

Ltac name_lets :=
  repeat match goal with
  | |- (let x := ?a in @?f x) = ?R =>
      let y := fresh "s" in
      pose (y := a); change (f y = R); cbv beta
  end.

Ltac fold_fills :=
  repeat match goal with
  | s := _ : gmap _ _ |- _ => subst s; rewrite fill_step_eq
  end.

Ltac defaults_as_fold :=
  name_lets; fold_fills;
  match goal with s := _ : gmap _ _ |- _ => subst s end;
  rewrite <- !foldl_step; change (foldl fill_step ?a []) with a;
  reflexivity.

Ltac defaults_cases S k :=
  unfold merged_lookup;
  destruct (S !! k); [done|];
  unfold applies, default_table;
  case_bool_decide; case_bool_decide; subst; try done;
  try (destruct (contains S rem_method); reflexivity);
  symmetry; etrans; [by apply lookup_insert_ne|done].

Lemma QChemKoopmanError_defaults_lookup (S : Settings) (k : list string) :
  QChemKoopmanError_defaults S !! k
  = match S !! k with
    | Some v => Some v
    | None =>
        if bool_decide (rem_exchange = k) && negb (contains S rem_method)
        then Some (SStr "hf")
        else (list_to_map [(rem_basis, SStr "3-21G"); (rem_jobtype, SStr "sp")]
              : Settings) !! k
    end.
Proof.
  assert (Hfold : QChemKoopmanError_defaults S =
    (foldl fill_step
       (if negb (contains S rem_exchange) && negb (contains S rem_method)
        then setitem rem_exchange (SStr "hf") S else S)
       [(rem_basis, SStr "3-21G"); (rem_jobtype, SStr "sp")])).
  { cbv beta delta [QChemKoopmanError_defaults]. defaults_as_fold. }
  rewrite Hfold. apply lookup_exchange_chain.
Qed.

Lemma QChemLRTDDFT_defaults_lookup (S : Settings) (k : list string) :
  QChemLRTDDFT_defaults S !! k = merged_lookup QChemLRTDDFT S k.
Proof.
  assert (Hfold : QChemLRTDDFT_defaults S =
    (foldl fill_step
       (if negb (contains S rem_exchange) && negb (contains S rem_method)
        then setitem rem_exchange (SStr "HF") S else S)
       [(rem_basis, SStr "3-21G");
        (["rem"; "cis_n_roots"], SInt 1); (["rem"; "cis_singlets"], SBool true);
        (["rem"; "cis_triplets"], SBool false); (["rem"; "rpa"], SBool true)])).
  { cbv beta delta [QChemLRTDDFT_defaults]. defaults_as_fold. }
  rewrite Hfold.
  rewrite lookup_exchange_chain. defaults_cases S k.
Qed.

Lemma QChemOptimize_defaults_lookup (S : Settings) (k : list string) :
  QChemOptimize_defaults S !! k = merged_lookup QChemOptimize S k.
Proof.
  assert (Hfold : QChemOptimize_defaults S =
    (foldl fill_step
       (if negb (contains S rem_exchange) && negb (contains S rem_method)
        then setitem rem_exchange (SStr "HF") S else S)
       [(rem_basis, SStr "3-21G"); (rem_jobtype, SStr "opt")])).
  { cbv beta delta [QChemOptimize_defaults]. defaults_as_fold. }
  rewrite Hfold.
  rewrite lookup_exchange_chain. defaults_cases S k.
Qed.

Lemma QChemPolarizability_defaults_lookup (S : Settings) (k : list string) :
  QChemPolarizability_defaults S !! k = merged_lookup QChemPolarizability S k.
Proof.
  assert (Hfold : QChemPolarizability_defaults S =
    (foldl fill_step
       (if negb (contains S rem_exchange) && negb (contains S rem_method)
        then setitem rem_exchange (SStr "HF") S else S)
       [(rem_basis, SStr "3-21G"); (rem_jobtype, SStr "polarizability")])).
  { cbv beta delta [QChemPolarizability_defaults]. defaults_as_fold. }
  rewrite Hfold.
  rewrite lookup_exchange_chain. defaults_cases S k.
Qed.

Lemma QChemVolume_defaults_lookup (S : Settings) (k : list string) :
  QChemVolume_defaults S !! k = merged_lookup QChemVolume S k.
Proof.
  assert (Hfold : QChemVolume_defaults S =
    (foldl fill_step
       (if negb (contains S rem_exchange) && negb (contains S rem_method)
        then setitem rem_exchange (SStr "HF") S else S)
       [(rem_basis, SStr "STO-3G");
        (["rem"; "scf_convergence"], SInt 1);
        (["rem"; "solvent_method"], SStr "pcm");
        (["pcm"; "theory"], SStr "iefpcm"); (["pcm"; "printlevel"], SInt 2);
        (["pcm"; "heavypoints"], SInt 194); (["pcm"; "hpoints"], SInt 194);
        (["solvent"; "dielectric"], SInt 1)])).
  { cbv beta delta [QChemVolume_defaults]. defaults_as_fold. }
  rewrite Hfold.
  rewrite lookup_exchange_chain. defaults_cases S k.
Qed.

Lemma QChemSinglePoint_defaults_lookup (S : Settings) (k : list string) :
  QChemSinglePoint_defaults S !! k = merged_lookup QChemSinglePoint S k.
Proof.
  assert (Hfold : QChemSinglePoint_defaults S =
    (foldl fill_step
       (if negb (contains S rem_exchange) && negb (contains S rem_method)
        then setitem rem_exchange (SStr "HF") S else S)
       [(rem_basis, SStr "3-21G"); (rem_jobtype, SStr "sp")])).
  { cbv beta delta [QChemSinglePoint_defaults]. defaults_as_fold. }
  rewrite Hfold.
  rewrite lookup_exchange_chain. defaults_cases S k.
Qed.

Lemma QChemSinglePointFrontier_defaults_lookup (S : Settings) (k : list string) :
  QChemSinglePointFrontier_defaults S !! k
  = merged_lookup QChemSinglePointFrontier S k.
Proof. apply QChemSinglePoint_defaults_lookup. Qed.

Lemma QChemAIMD_defaults_lookup (S M : Settings) (k : list string) :
  QChemAIMD_defaults S = Ok M → M !! k = merged_lookup QChemAIMD S k.
Proof.
  unfold QChemAIMD_defaults, merged_lookup. cbv zeta.
  set (s5 := if negb (contains _ ["rem"; "aimd_steps"]) then _ else _).
  assert (H5 : ∀ k', s5 !! k' = match S !! k' with
     | Some x => Some x
     | None =>
         if bool_decide (rem_exchange = k') && negb (contains S rem_method)
         then Some (SStr "HF")
         else (list_to_map
                 [(rem_basis, SStr "3-21G"); (rem_jobtype, SStr "aimd");
                  (["rem"; "time_step"], SInt 1);
                  (["rem"; "aimd_steps"], SInt 10)] : Settings) !! k'
     end).
  { intros k'. rewrite <- lookup_exchange_chain. reflexivity. }
  assert (Hvel : contains s5 ["velocity"] = contains S ["velocity"]).
  { rewrite !contains_lookup, H5. by destruct (S !! ["velocity"]). }
  rewrite Hvel.
  set (s6 := if _ && negb (contains s5 _) then _ else _).
  assert (H6 : ∀ k', s6 !! k' = match s5 !! k' with
     | Some x => Some x
     | None =>
         if bool_decide (["rem"; "aimd_init_veloc"] = k')
            && negb (contains S ["velocity"])
         then Some (SStr "thermal") else None
     end).
  { intros k'. apply lookup_fill_guarded_l. }
  assert (Htemp : contains s6 ["rem"; "aimd_temp"]
                  = contains S ["rem"; "aimd_temp"]).
  { rewrite !contains_lookup, H6, H5. by destruct (S !! ["rem"; "aimd_temp"]). }
  rewrite Htemp.
  assert (Hveloc : s6 !! ["rem"; "aimd_init_veloc"] =
     match S !! ["rem"; "aimd_init_veloc"] with
     | Some x => Some x
     | None => if negb (contains S ["velocity"]) then Some (SStr "thermal") else None
     end).
  { rewrite H6, H5. by destruct (S !! ["rem"; "aimd_init_veloc"]). }
  rewrite Hveloc. clearbody s6 s5.
  intros HM.
  set (th := match S !! ["rem"; "aimd_init_veloc"] with
             | Some v => is_thermal v
             | None => negb (contains S ["velocity"])
             end).
  assert (HM' : M = if negb (contains s6 ["rem"; "aimd_temp"]) && th
                    then setitem ["rem"; "aimd_temp"] (SInt 300) s6 else s6).
  { rewrite Htemp. subst th.
    destruct (S !! ["rem"; "aimd_init_veloc"]) as [[v|n|b]|];
      destruct (contains S ["velocity"]);
      destruct (contains S ["rem"; "aimd_temp"]); simpl in HM |- *;
      try discriminate HM;
      try (destruct (bool_decide (strip (lower v) = "thermal")); simpl in HM |- *);
      congruence. }
  rewrite HM', lookup_fill_guarded, H6, H5.
  destruct (S !! k) as [x|] eqn:Hk; [done|].
  unfold applies, default_table. fold th.
  clearbody th. clear.
  destruct (decide (k = rem_exchange)) as [->|Hex].
  { by destruct (contains S rem_method), (contains S ["velocity"]), th. }
  rewrite (bool_decide_eq_false_2 (rem_exchange = k)) by done.
  rewrite (bool_decide_eq_false_2 (k = rem_exchange)) by done.
  destruct (decide (k = ["rem"; "aimd_init_veloc"])) as [->|Hveloc].
  { by destruct (contains S ["velocity"]), th. }
  rewrite (bool_decide_eq_false_2 (["rem"; "aimd_init_veloc"] = k)) by done.
  rewrite (bool_decide_eq_false_2 (k = ["rem"; "aimd_init_veloc"])) by done.
  destruct (decide (k = ["rem"; "aimd_temp"])) as [->|Htemp].
  { by destruct th. }
  rewrite (bool_decide_eq_false_2 (["rem"; "aimd_temp"] = k)) by done.
  rewrite (bool_decide_eq_false_2 (k = ["rem"; "aimd_temp"])) by done.
  simpl andb. cbv iota.
  rewrite !list_to_map_cons, !lookup_insert. simpl fst; simpl snd.
  rewrite (decide_False (P := rem_exchange = k)) by done.
  rewrite (decide_False (P := ["rem"; "aimd_init_veloc"] = k)) by done.
  rewrite (decide_False (P := ["rem"; "aimd_temp"] = k)) by done.
  by repeat case_decide.
Qed.

(** C2 (as the code has it). Whenever [defaults] returns, a key of the
    caller's settings keeps the caller's value, and a key the caller left
    out gets the class default when the test guarding that default lets it
    through ([applies]): [("rem", "exchange")] is filled only when the caller
    gave neither it nor [("rem", "method")], and in [QChemAIMD]
    [("rem", "aimd_init_veloc")] only without a [("velocity",)] entry and
    [("rem", "aimd_temp")] only for a thermal initial velocity.  A default
    that is held back leaves its key absent. *)
Theorem defaults_fill_absent_keys (self : qchem_task) (S M : Settings) :
  defaults self S = Ok M →
  ∀ k : list string,
    M !! k = match S !! k with
             | Some v => Some v
             | None => if applies self S k then default_table self !! k else None
             end.
Proof.
  intros HM k. change (M !! k = merged_lookup self S k).
  destruct self; cbv beta iota delta [defaults] in HM;
    try discriminate HM; try (injection HM as <-).
  - by apply QChemAIMD_defaults_lookup.
  - apply QChemLRTDDFT_defaults_lookup.
  - apply QChemOptimize_defaults_lookup.
  - apply QChemPolarizability_defaults_lookup.
  - apply QChemVolume_defaults_lookup.
  - apply QChemSinglePoint_defaults_lookup.
  - apply QChemSinglePointFrontier_defaults_lookup.
Qed.

Lemma defaults_fill_absent_keys_witness :
  QChemSinglePoint_defaults {[ rem_method := SStr "b3lyp" ]} !! rem_method
  = Some (SStr "b3lyp")
  ∧ QChemSinglePoint_defaults {[ rem_method := SStr "b3lyp" ]} !! rem_basis
    = Some (SStr "3-21G")
  ∧ QChemSinglePoint_defaults {[ rem_method := SStr "b3lyp" ]} !! rem_exchange
    = None.
Proof.
  pose proof (defaults_fill_absent_keys QChemSinglePoint
                {[ rem_method := SStr "b3lyp" ]}
                (QChemSinglePoint_defaults {[ rem_method := SStr "b3lyp" ]})
                eq_refl) as Hlookup.
  split; [|split].
  - rewrite (Hlookup rem_method). vm_compute. reflexivity.
  - rewrite (Hlookup rem_basis). vm_compute. reflexivity.
  - rewrite (Hlookup rem_exchange). vm_compute. reflexivity.
Defined.

(** C2 (as stated) fails. With [("rem", "method")] given by the caller,
    [QChemSinglePoint.defaults] leaves [("rem", "exchange")] absent although
    the caller did not give it and the class default for it is ["HF"]. *)
Lemma defaults_not_override_law :
  let S : Settings := {[ rem_method := SStr "b3lyp" ]} in
  defaults QChemSinglePoint S = Ok (QChemSinglePoint_defaults S)
  ∧ S !! rem_exchange = None
  ∧ default_table QChemSinglePoint !! rem_exchange = Some (SStr "HF")
  ∧ QChemSinglePoint_defaults S !! rem_exchange = None
  ∧ ¬ override_law (default_table QChemSinglePoint) S (QChemSinglePoint_defaults S).
Proof.
  repeat split; try reflexivity.
  intros Hlaw. specialize (Hlaw rem_exchange).
  vm_compute in Hlaw. discriminate Hlaw.
Qed.

(** ** [QChem.command] *)

Section shlex.
Implicit Types (w e token rest : string) (ts : list string).

Lemma append_cons (c : ascii) w rest : String c w ++ rest = String c (w ++ rest).
Proof. reflexivity. Qed.

Lemma append_snoc token (c : ascii) w :
  (token ++ String c EmptyString) ++ w = token ++ String c w.
Proof.
  induction token as [|a token IH]; [done|].
  rewrite !append_cons. by rewrite IH.
Qed.

Lemma append_nil_r w : w ++ "" = w.
Proof. induction w as [|a w IH]; [done|]. rewrite append_cons. by rewrite IH. Qed.

Lemma append_assoc (a b c : string) : (a ++ b) ++ c = a ++ (b ++ c).
Proof. induction a as [|x a IH]; [done|]. rewrite !append_cons. by rewrite IH. Qed.

Lemma plain_char_spec c :
  plain_char c = true →
  is_whitespace c = false ∧ is_quote c = false ∧ is_escape c = false.
Proof.
  unfold plain_char. intros Hc.
  destruct (is_whitespace c), (is_quote c), (is_escape c); done.
Qed.

Lemma read_word w token quoted rest :
  plain_chars w = true →
  read_tokens StWord token quoted (w ++ rest)
  = read_tokens StWord (token ++ w) quoted rest.
Proof.
  revert token. induction w as [|c w IH]; intros token Hw.
  - by rewrite append_nil_r.
  - simpl in Hw. apply andb_true_iff in Hw as [Hc Hw].
    apply plain_char_spec in Hc as (Hws & Hq & He).
    rewrite append_cons. simpl. rewrite Hws, Hq, He.
    rewrite IH by done. by rewrite append_snoc.
Qed.

Lemma read_plain w rest :
  plain w = true →
  read_tokens StSpace "" false (w ++ rest) = read_tokens StWord w false rest.
Proof.
  unfold plain. destruct w as [|c w]; [done|]. intros Hw. simpl in Hw.
  apply andb_true_iff in Hw as [Hc Hw].
  apply plain_char_spec in Hc as (Hws & Hq & He).
  rewrite append_cons. simpl. rewrite Hws, Hq, He.
  by rewrite read_word.
Qed.

Lemma read_space rest :
  read_tokens StSpace "" false (" " ++ rest) = read_tokens StSpace "" false rest.
Proof. reflexivity. Qed.

Lemma tokenizes_plain w : plain w = true → tokenizes w [w].
Proof.
  intros Hw rest Hgap. rewrite read_plain by done.
  assert (Hn : nonempty w = true) by (by apply andb_true_iff in Hw as [? ?]).
  destruct Hgap as [->|[rest' ->]]; simpl; by rewrite Hn.
Qed.

Lemma tokenizes_nil : tokenizes "" [].
Proof. by intros rest _. Qed.

Lemma tokenizes_space e ts : tokenizes e ts → tokenizes (" " ++ e) ts.
Proof. intros He rest Hgap. by apply He. Qed.

Lemma tokenizes_join e1 e2 ts1 ts2 :
  tokenizes e1 ts1 → tokenizes e2 ts2 →
  tokenizes (e1 ++ " " ++ e2) (ts1 ++ ts2).
Proof.
  intros H1 H2 rest Hgap.
  rewrite append_assoc, H1 by (right; eauto).
  rewrite foldr_app. f_equal.
  change ((" " ++ e2) ++ rest) with (" " ++ (e2 ++ rest)).
  rewrite read_space. by apply H2.
Qed.

Lemma tokenizes_concat es tss :
  Forall2 tokenizes es tss →
  tokenizes (String.concat " " es) (concat tss).
Proof.
  induction 1 as [|e ts es tss He Hes IH]; [apply tokenizes_nil|].
  destruct es as [|e' es].
  - inversion Hes; subst. simpl. rewrite app_nil_r. done.
  - change (String.concat " " (e :: e' :: es))
      with (e ++ " " ++ String.concat " " (e' :: es)).
    simpl concat. by apply tokenizes_join.
Qed.

Lemma foldr_emit_ok ts : foldr emit (Ok []) ts = Ok ts.
Proof. induction ts as [|t ts IH]; simpl; [done|]. by rewrite IH. Qed.

Lemma tokenizes_split e ts : tokenizes e ts → shlex_split e = Ok ts.
Proof.
  intros He. unfold shlex_split.
  rewrite <- (append_nil_r e), He by (by left).
  apply foldr_emit_ok.
Qed.
End shlex.
Section command.
Implicit Types (w e token rest : string) (ts es : list string).

Lemma plain_chars_string_of_uint (d : Decimal.uint) :
  plain_chars (NilEmpty.string_of_uint d) = true.
Proof. induction d; simpl; done. Qed.

Lemma plain_str_int (n : Z) : plain (str_int n) = true.
Proof.
  unfold str_int, plain. destruct (Z.to_int n) as [d|d]; simpl.
  - destruct d; simpl; rewrite ?plain_chars_string_of_uint; done.
  - destruct d; simpl; rewrite ?plain_chars_string_of_uint; done.
Qed.

Lemma tokenize_all_app es1 ts1 es2 ts2 :
  tokenize_all es1 ts1 → tokenize_all es2 ts2 →
  tokenize_all (es1 ++ es2)%list (ts1 ++ ts2)%list.
Proof.
  induction 1 as [|e ts es ts' He Hes IH]; intros H2; simpl; [done|].
  rewrite <- app_assoc. constructor; auto.
Qed.

Lemma tokenize_all_plain ws :
  Forall (λ w, plain w = true) ws → tokenize_all ws ws.
Proof.
  induction 1 as [|w ws Hw Hws IH]; [constructor|].
  change (w :: ws) with ([w] ++ ws)%list at 2.
  constructor; [by apply tokenizes_plain|done].
Qed.

Lemma tokenize_all_one e ts : tokenizes e ts → tokenize_all [e] ts.
Proof.
  intros He. rewrite <- (app_nil_r ts). constructor; [done|constructor].
Qed.

Lemma tokenize_all_split es ts :
  tokenize_all es ts → shlex_split (String.concat " " es) = Ok ts.
Proof.
  intros Hall. apply tokenizes_split.
  assert (∃ tss, Forall2 tokenizes es tss ∧ ts = concat tss) as (tss & Htss & ->).
  { induction Hall as [|e ts es ts' He Hes (tss & Htss & ->)].
    - by exists [].
    - exists (ts :: tss). split; [by constructor|done]. }
  by apply tokenizes_concat.
Qed.

Lemma tokenizes_flag (flag : string) (n : Z) :
  plain flag = true → tokenizes (flag ++ " " ++ str_int n) [flag; str_int n].
Proof.
  intros Hflag.
  apply (tokenizes_join flag (str_int n) [flag] [str_int n]);
    apply tokenizes_plain; [done|apply plain_str_int].
Qed.
End command.

(** C4 (as the code has it). When no element needs quoting (executable,
    extra arguments, savename and the two files are free of whitespace,
    quotes and backslashes), the command line is
    [<executable> [-save] [extra_args...] [-np <n>] [-nt <n>] [savename]
    <input_file> <output_file>] in this order, where [-save], [-np <n>] and
    [-nt <n>] are there exactly when their field is set, the extra arguments
    (the engine's, then the call's) exactly when the engine has an argument
    list, and savename exactly when [save] is set and savename is a
    non-empty string. *)
Theorem command_matches_grammar (self : QChem) (inp out work_dir : string)
    (call_arguments : option (list string)) :
  plain (executable self) = true →
  Forall (λ a, plain a = true) (default [] (arguments self)) →
  Forall (λ a, plain a = true) (default [] call_arguments) →
  plain_chars (default EmptyString (savename self)) = true →
  plain inp = true →
  plain out = true →
  command self inp out work_dir call_arguments
  = Ok (command_line self inp out call_arguments).
Proof.
  intros Hexe Hargs Hcall Hname Hinp Hout.
  unfold command, command_line. cbv zeta.
  destruct self as [exe sd qe np nt args sv sn]; simpl in *.
  set (named := sv && truthy sn).
  apply tokenize_all_split.
  match goal with
  | |- tokenize_all ?l _ =>
      replace l with
        ([exe] ++ (if sv then ["-save"] else [])
         ++ match args with Some a => a ++ default [] call_arguments | None => [] end
         ++ match np with Some n => [("-np " ++ str_int n)%string] | None => [] end
         ++ match nt with Some n => [("-nt " ++ str_int n)%string] | None => [] end
         ++ (if named then [(" " ++ default EmptyString sn)%string] else [])
         ++ [inp; out])%list
  end.
  2: { destruct named, nt, np, args, sv; simpl; rewrite <- ?app_assoc; reflexivity. }
  change (exe :: ?l) with ([exe] ++ l)%list.
  repeat apply tokenize_all_app.
  - apply tokenize_all_plain. by constructor.
  - destruct sv; [|constructor]. apply tokenize_all_plain. by constructor.
  - destruct args as [a|]; [|constructor].
    apply tokenize_all_plain. by apply Forall_app.
  - destruct np as [n|]; [|constructor].
    apply tokenize_all_one. by apply (tokenizes_flag "-np").
  - destruct nt as [n|]; [|constructor].
    apply tokenize_all_one. by apply (tokenizes_flag "-nt").
  - destruct named eqn:Hnamed; [|constructor].
    apply tokenize_all_one, tokenizes_space, tokenizes_plain.
    subst named. apply andb_true_iff in Hnamed as [_ Htruthy].
    destruct sn as [s|]; [|done]. simpl in *.
    unfold plain. by rewrite Htruthy, Hname.
  - apply tokenize_all_plain. by repeat constructor.
Qed.

Lemma command_matches_grammar_witness :
  command qchem_full "in.qc" "out.qc" "." (Some ["-x"])
  = Ok ["qchem"; "-save"; "-archive"; "-x"; "-np"; "4"; "-nt"; "2"; "job";
        "in.qc"; "out.qc"].
Proof.
  apply (command_matches_grammar qchem_full "in.qc" "out.qc" "." (Some ["-x"]));
    try reflexivity.
  - repeat constructor.
  - repeat constructor.
Defined.

(** C4 (as stated) fails. An engine configured with a savename but without
    [save] builds a command line without the savename. *)
Lemma command_drops_savename :
  savename qchem_savename_only = Some "job"
  ∧ command qchem_savename_only "in.qc" "out.qc" "." None
    = Ok ["qchem"; "in.qc"; "out.qc"]
  ∧ documented_command qchem_savename_only "in.qc" "out.qc"
    = ["qchem"; "job"; "in.qc"; "out.qc"]
  ∧ command qchem_savename_only "in.qc" "out.qc" "." None
    ≠ Ok (documented_command qchem_savename_only "in.qc" "out.qc").
Proof. repeat split; try reflexivity. discriminate. Qed.

(** ** The parsers on outputs without their markers *)

(** C5. When the output lacks what the parser of a class looks for,
    [QChemSinglePoint.parse] returns [None], [QChemSinglePointFrontier.parse]
    returns [(None, None, None)], [QChemPolarizability.parse] returns a
    polarizability without a tensor, and the parsers of the other classes
    raise; on any output at all, a frontier result that is returned has
    either all three of its parts or none of them. *)
Theorem parse_markers_absent `{External} (self : qchem_task)
    (output : option string) :
  (markers_absent self output →
   match null_fallback self with
   | Some p => parse self output = Ok p
   | None => ∃ e, parse self output = Raise e
   end)
  ∧ (∀ p, parse self output = Ok p → consistent p).
Proof.
  split.
  - destruct self; simpl; intros Habs; try done.
    + unfold QChemLRTDDFT_parse.
      destruct (ccread output) as [data|]; [|by eexists].
      destruct (Habs data eq_refl) as [He|[He|[He|He]]]; rewrite ?He;
        repeat case_match; by eexists.
    + unfold QChemOptimize_parse.
      destruct (ccread output) as [data|]; [|by eexists].
      destruct (Habs data eq_refl) as [He|He]; rewrite ?He;
        repeat case_match; by eexists.
    + unfold QChemPolarizability_parse.
      destruct (ccread output) as [data|]; [|done].
      by rewrite (Habs data eq_refl).
    + unfold QChemVolume_parse.
      destruct output as [text|]; [|by eexists].
      specialize (Habs text eq_refl).
      destruct (marker_lines (readlines text)) as [|a [|b [|c l]]];
        first [by exfalso | by eexists].
    + unfold QChemSinglePoint_parse.
      destruct (ccread output) as [data|]; [|done].
      by rewrite (Habs data eq_refl).
    + unfold QChemSinglePointFrontier_parse.
      destruct (ccread output) as [data|]; [|done].
      destruct (Habs data eq_refl) as [He|[He|He]]; rewrite He;
        by repeat case_match.
  - intros p Hp. destruct p; try done. simpl.
    destruct self; simpl in Hp; try discriminate Hp.
    + unfold QChemAIMD_parse in Hp. by case_match.
    + unfold QChemLRTDDFT_parse in Hp. by repeat case_match.
    + unfold QChemOptimize_parse in Hp. by repeat case_match.
    + unfold QChemPolarizability_parse in Hp. by repeat case_match.
    + unfold QChemVolume_parse in Hp. by repeat case_match.
    + unfold QChemSinglePoint_parse in Hp. by repeat case_match.
    + unfold QChemSinglePointFrontier_parse in Hp.
      repeat case_match; simplify_eq; eauto 10.
Qed.

Lemma parse_markers_absent_witness :
  @parse stub_external QChemSinglePointFrontier (Some "empty.in")
  = Ok (PFrontier None None None).
Proof.
  apply (proj1 (@parse_markers_absent stub_external QChemSinglePointFrontier
                  (Some "empty.in"))).
  intros data Hdata. vm_compute in Hdata. injection Hdata as <-.
  left. reflexivity.
Defined.

(** ** The Koopman error *)

Section koopman.
Context `{External} `{Process}.

Lemma koopman_error_formula (neutral homo lumo cation anion : Q) :
  let ea := (neutral - anion)%Q in
  let ip := (cation - neutral)%Q in
  (ea <= 0 →
   koopman_error (Some neutral) (Some homo) (Some lumo) (Some cation) (Some anion)
   = Ok (np_sqrt ((ip + homo) ^ 2)))%Q
  ∧ (0 < ea →
     koopman_error (Some neutral) (Some homo) (Some lumo) (Some cation) (Some anion)
     = Ok (np_sqrt ((ip + homo) ^ 2 + (ea + lumo) ^ 2)))%Q.
Proof.
  intros ea ip. unfold koopman_error. fold ea ip.
  destruct (Qlt_le_dec 0 ea) as [Hpos|Hneg]; split; intros Hea; try done.
  - exfalso. by apply (Qlt_not_le 0 ea).
  - exfalso. by apply (Qlt_not_le 0 ea).
Qed.
End koopman.

(** C10. When the three single-point runs return a neutral energy with
    frontier energies [homo] and [lumo], a cation energy and an anion energy,
    [QChemKoopmanError.compute] returns [sqrt((ip + homo)^2)] when
    [ea = neutral - anion] is not positive and
    [sqrt((ip + homo)^2 + (ea + lumo)^2)] when it is, with
    [ip = cation - neutral]. *)
Theorem QChemKoopmanError_compute_formula `{External} `{Process}
    (engine : QChem) (gs_io cation_io anion_io : IO) (molecule : Molecule)
    (settings : option nat) (w w' : world) (neutral homo lumo cation anion : Q) :
  QChemKoopmanError_single_points engine gs_io cation_io anion_io molecule settings w
  = (Ok (PFrontier (Some neutral) (Some homo) (Some lumo),
         PEnergy (Some cation), PEnergy (Some anion)), w') →
  let ea := (neutral - anion)%Q in
  let ip := (cation - neutral)%Q in
  (ea <= 0 →
   QChemKoopmanError_compute engine gs_io cation_io anion_io molecule settings w
   = (Ok (np_sqrt ((ip + homo) ^ 2)), w'))%Q
  ∧ (0 < ea →
     QChemKoopmanError_compute engine gs_io cation_io anion_io molecule settings w
     = (Ok (np_sqrt ((ip + homo) ^ 2 + (ea + lumo) ^ 2)), w'))%Q.
Proof.
  intros Hout ea ip.
  destruct (koopman_error_formula neutral homo lumo cation anion) as [Hneg Hpos].
  unfold QChemKoopmanError_compute, bind, lift. rewrite Hout.
  split; intros Hea.
  - by rewrite Hneg.
  - by rewrite Hpos.
Qed.

Lemma QChemKoopmanError_compute_formula_witness :
  fst (@QChemKoopmanError_compute stub_external stub_process qchem_default
         gs_io cation_io anion_io water (Some 0%nat) (caller_world ∅))
  = Ok ((12 - 10 + -5) ^ 2 + (10 - 9 + 1) ^ 2)%Q
  ∧ fst (@QChemKoopmanError_compute stub_external stub_process qchem_default
           gs_io cation_io anion_high_io water (Some 0%nat) (caller_world ∅))
    = Ok ((12 - 10 + -5) ^ 2)%Q.
Proof.
  split.
  - assert (Hout :
      @QChemKoopmanError_single_points stub_external stub_process qchem_default
        gs_io cation_io anion_io water (Some 0%nat) (caller_world ∅)
      = (Ok (PFrontier (Some 10%Q) (Some (-5)%Q) (Some 1%Q),
             PEnergy (Some 12%Q), PEnergy (Some 9%Q)),
         snd (@QChemKoopmanError_single_points stub_external stub_process
                qchem_default gs_io cation_io anion_io water (Some 0%nat)
                (caller_world ∅)))).
    { vm_compute. reflexivity. }
    destruct (@QChemKoopmanError_compute_formula stub_external stub_process
                _ _ _ _ _ _ _ _ _ _ _ _ _ Hout) as [_ Hpos].
    rewrite Hpos; [reflexivity|]. vm_compute. reflexivity.
  - assert (Hout :
      @QChemKoopmanError_single_points stub_external stub_process qchem_default
        gs_io cation_io anion_high_io water (Some 0%nat) (caller_world ∅)
      = (Ok (PFrontier (Some 10%Q) (Some (-5)%Q) (Some 1%Q),
             PEnergy (Some 12%Q), PEnergy (Some 11%Q)),
         snd (@QChemKoopmanError_single_points stub_external stub_process
                qchem_default gs_io cation_io anion_high_io water (Some 0%nat)
                (caller_world ∅)))).
    { vm_compute. reflexivity. }
    destruct (@QChemKoopmanError_compute_formula stub_external stub_process
                _ _ _ _ _ _ _ _ _ _ _ _ _ Hout) as [Hneg _].
    rewrite Hneg; [reflexivity|]. vm_compute. discriminate.
Defined.

(** ** One compute call: where it can stop *)


(** ** The caller's settings *)

Section frame.
Context `{External} `{Process}.
Variable old : gmap nat Settings.

Lemma keeps_ret {A : Type} (a : A) (post : A → Prop) :
  post a → keeps old (ret a) post.
Proof. intros Ha w Hw. split; [done|]. by intros ? [= <-]. Qed.

Lemma keeps_raise {A : Type} (e : exn) (post : A → Prop) :
  keeps old (raise e) post.
Proof. intros w Hw. split; [done|]. by intros ? [=]. Qed.

Lemma keeps_lift {A : Type} (r : result A) :
  keeps old (lift r) (λ _, True).
Proof. by intros w Hw. Qed.

Lemma keeps_bind {A B : Type} (m : M A) (k : A → M B)
    (mid : A → Prop) (post : B → Prop) :
  keeps old m mid → (∀ a, mid a → keeps old (k a) post) →
  keeps old (bind m k) post.
Proof.
  intros Hm Hk w Hw. unfold bind.
  destruct (Hm w Hw) as [Hw' Hmid].
  destruct (m w) as [[a|e] w']; simpl in *.
  - by apply (Hk a (Hmid a eq_refl)).
  - split; [done|]. by intros ? [=].
Qed.

Lemma keeps_weaken {A : Type} (m : M A) (post post' : A → Prop) :
  keeps old m post → (∀ a, post a → post' a) → keeps old m post'.
Proof.
  intros Hm Himp w Hw. destruct (Hm w Hw) as [Hw' Hpost]. split; [done|eauto].
Qed.

Lemma keeps_log (ev : event) : keeps old (log ev) (λ _, True).
Proof. by intros w Hw. Qed.

(** A new object is behind none of the old references. *)
Lemma keeps_new_settings (S : Settings) :
  keeps old (new_settings S) (λ r, old !! r = None).
Proof.
  intros w Hw. unfold new_settings. simpl.
  assert (Hfresh : settings_heap w !! fresh (dom (settings_heap w)) = None).
  { apply not_elem_of_dom, is_fresh. }
  assert (Hold : old !! fresh (dom (settings_heap w)) = None).
  { destruct (old !! fresh (dom (settings_heap w))) as [d|] eqn:Hd; [|done].
    rewrite (lookup_weaken _ _ _ _ Hd Hw) in Hfresh. done. }
  split.
  - by apply insert_subseteq_r.
  - by intros ? [= <-].
Qed.

Lemma keeps_deepcopy (r : nat) :
  keeps old (deepcopy r) (λ r', old !! r' = None).
Proof.
  intros w Hw. unfold deepcopy.
  destruct (settings_heap w !! r) as [d|]; [by apply keeps_new_settings|].
  split; [done|]. by intros ? [=].
Qed.

Lemma keeps_private_settings (settings : option nat) :
  keeps old (private_settings settings) (λ r, old !! r = None).
Proof.
  destruct settings; [apply keeps_deepcopy|apply keeps_new_settings].
Qed.

(** Updates behind a reference that is not an old one. *)
Lemma keeps_setitem_at (r : nat) (key : list string) (v : setting) :
  old !! r = None → keeps old (setitem_at r key v) (λ _, True).
Proof.
  intros Hr w Hw. unfold setitem_at.
  destruct (settings_heap w !! r) as [d|]; simpl; [|done].
  split; [|done]. by apply insert_subseteq_r.
Qed.

Lemma keeps_defaults_at (f : Settings → result Settings) (r : nat) :
  old !! r = None → keeps old (defaults_at f r) (λ r', r' = r).
Proof.
  intros Hr w Hw. unfold defaults_at.
  destruct (settings_heap w !! r) as [d|]; simpl; [|done].
  destruct (f d) as [d'|e]; simpl; [|done].
  split; [by apply insert_subseteq_r|]. by intros ? [= <-].
Qed.

Lemma keeps_with_io {A : Type} (io : IO) (body : M A) (post : A → Prop) :
  keeps old body post → keeps old (with_io io body) post.
Proof.
  intros Hbody w Hw. unfold with_io.
  destruct (keeps_bind (log (EvEnter io)) (λ _, body) (λ _, True) post
              (keeps_log _) (λ _ _, Hbody) w Hw) as [Hw' Hpost].
  destruct ((log (EvEnter io) ;;@ body) w) as [r w']. done.
Qed.

Lemma keeps_QChemInput_str (inp : QChemInput) :
  keeps old (QChemInput_str inp) (λ _, True).
Proof.
  intros w Hw. unfold QChemInput_str.
  destruct (text inp); [done|]. by destruct (settings_heap w !! settings inp).
Qed.

Lemma keeps_QChemInput_write (inp : QChemInput) (filepath : string) :
  keeps old (QChemInput_write inp filepath) (λ _, True).
Proof.
  unfold QChemInput_write.
  eapply keeps_bind; [apply keeps_QChemInput_str|]. intros s _.
  eapply keeps_bind; [apply keeps_log|]. intros _ _. by intros w Hw.
Qed.

Lemma keeps_QChemInput_add (a b : QChemInput) :
  keeps old (QChemInput_add a b) (λ _, True).
Proof.
  unfold QChemInput_add.
  eapply keeps_bind; [apply keeps_QChemInput_str|]. intros sa _.
  eapply keeps_bind; [apply keeps_QChemInput_str|]. intros sb _.
  eapply keeps_bind; [apply keeps_new_settings|]. intros r _.
  by apply keeps_ret.
Qed.

Lemma keeps_engine_execute (engine : QChem) (io : IO)
    (arguments : option (list string)) :
  keeps old (engine_execute engine io arguments) (λ _, True).
Proof.
  unfold engine_execute.
  eapply keeps_bind; [apply keeps_log|]. intros _ _ w Hw.
  by destruct (execute engine io arguments (files w)).
Qed.

Lemma keeps_parse_file (self : qchem_task) (path : string) :
  keeps old (parse_file self path) (λ _, True).
Proof.
  unfold parse_file.
  eapply keeps_bind; [apply keeps_log|]. by intros _ _ w Hw.
Qed.

Lemma keeps_QChemBaseTask_compute (self : qchem_task) (engine : QChem)
    (io : IO) (molecule : Molecule) (settings : option nat)
    (arguments : option (list string)) :
  keeps old (QChemBaseTask_compute self engine io molecule settings arguments)
    (λ _, True).
Proof.
  unfold QChemBaseTask_compute.
  eapply keeps_bind; [apply keeps_private_settings|]. intros s Hs.
  eapply keeps_bind; [by apply keeps_defaults_at|]. intros ? ->.
  apply keeps_with_io.
  eapply keeps_bind; [apply keeps_QChemInput_write|]. intros _ _.
  eapply keeps_bind; [apply keeps_engine_execute|]. intros _ _.
  apply keeps_parse_file.
Qed.

Lemma keeps_nto_pairs_step (settings : nat)
    (n_alpha num_nto_pairs n_x n_y n_z : Z) (inp : QChemInput) (i : Z) :
  keeps old (nto_pairs_step settings n_alpha num_nto_pairs n_x n_y n_z inp i)
    (λ _, True).
Proof.
  unfold nto_pairs_step.
  eapply keeps_bind; [apply keeps_deepcopy|]. intros s Hs.
  do 6 (eapply keeps_bind; [by apply keeps_setitem_at|]; intros _ _).
  apply keeps_QChemInput_add.
Qed.

Lemma keeps_nto_pairs_loop (settings : nat)
    (n_alpha num_nto_pairs n_x n_y n_z : Z) (inp : QChemInput) (roots : list Z) :
  keeps old (nto_pairs_loop settings n_alpha num_nto_pairs n_x n_y n_z inp roots)
    (λ _, True).
Proof.
  revert inp. induction roots as [|i roots IH]; intros inp; simpl.
  - by apply keeps_ret.
  - eapply keeps_bind; [apply keeps_nto_pairs_step|]. intros inp' _. apply IH.
Qed.

Lemma keeps_cis_n_roots (settings : nat) :
  keeps old (cis_n_roots settings) (λ _, True).
Proof.
  intros w Hw. unfold cis_n_roots.
  destruct (settings_heap w !! settings) as [d|]; [|done].
  by destruct (d !! ["rem"; "cis_n_roots"]) as [[?|?|?]|].
Qed.

Lemma keeps_nto_pairs (molecule : Molecule) (settings : nat)
    (num_nto_pairs n_x n_y n_z : Z) :
  keeps old (_nto_pairs molecule settings num_nto_pairs n_x n_y n_z) (λ _, True).
Proof.
  unfold _nto_pairs.
  eapply keeps_bind; [apply keeps_new_settings|]. intros r _.
  eapply keeps_bind; [apply keeps_cis_n_roots|]. intros roots _.
  apply keeps_nto_pairs_loop.
Qed.

Lemma keeps_QChemLRTDDFT_compute (engine : QChem) (io : IO) (molecule : Molecule)
    (settings : option nat) (num_nto_pairs n_x n_y n_z : Z) :
  keeps old
    (QChemLRTDDFT_compute engine io molecule settings num_nto_pairs n_x n_y n_z)
    (λ _, True).
Proof.
  unfold QChemLRTDDFT_compute.
  eapply keeps_bind; [apply keeps_private_settings|]. intros s Hs.
  eapply keeps_bind; [by apply keeps_defaults_at|]. intros ? ->.
  eapply keeps_bind with (mid := λ _, True).
  { destruct (0 <? num_nto_pairs)%Z; [|by apply keeps_ret].
    eapply keeps_bind; [apply keeps_nto_pairs|]. intros pairs _.
    apply keeps_QChemInput_add. }
  intros inp _. apply keeps_with_io.
  eapply keeps_bind; [apply keeps_QChemInput_write|]. intros _ _.
  eapply keeps_bind; [apply keeps_engine_execute|]. intros _ _.
  eapply keeps_bind; [apply keeps_parse_file|]. intros ex _.
  by apply keeps_ret.
Qed.

Lemma keeps_QChemKoopmanError_compute (engine : QChem)
    (gs_io cation_io anion_io : IO) (molecule : Molecule)
    (settings : option nat) :
  keeps old
    (QChemKoopmanError_compute engine gs_io cation_io anion_io molecule settings)
    (λ _, True).
Proof.
  unfold QChemKoopmanError_compute, QChemKoopmanError_single_points,
    Workflow_compute.
  eapply keeps_bind with (mid := λ _, True).
  { eapply keeps_bind; [apply keeps_private_settings|]. intros s Hs.
    eapply keeps_bind; [by apply keeps_defaults_at|]. intros ? ->.
    do 3 (eapply keeps_bind; [apply keeps_QChemBaseTask_compute|]; intros ? _).
    by apply keeps_ret. }
  intros [[neutral cation] anion] _.
  destruct neutral, cation, anion;
    first [apply keeps_lift | apply keeps_raise].
Qed.
End frame.

Lemma compute_private_copy `{External} `{Process} (self : qchem_task)
    (engine : QChem) (io : IO) (molecule : Molecule) (settings : nat)
    (arguments : option (list string)) (w : world) (S merged : Settings) :
  settings_heap w !! settings = Some S →
  defaults self S = Ok merged →
  ∃ s : nat,
    s ≠ settings
    ∧ settings_heap
        (snd (QChemBaseTask_compute self engine io molecule (Some settings)
                arguments w)) !! s = Some merged.
Proof.
  intros Hs Hmerged.
  exists (fresh (dom (settings_heap w))). split.
  { intros Heq. apply (is_fresh (dom (settings_heap w))).
    rewrite Heq. apply elem_of_dom. eauto. }
  unfold QChemBaseTask_compute, bind, private_settings, deepcopy, new_settings.
  rewrite Hs. unfold defaults_at. simpl. rewrite lookup_insert_eq, Hmerged.
  unfold with_io, bind, QChemInput_write, QChemInput_str, bind, log,
    engine_execute, parse_file, bind, log. simpl.
  rewrite lookup_insert_eq. simpl.
  destruct (execute engine io arguments _) as [files'|e]; simpl;
    by rewrite lookup_insert_eq.
Qed.

(** C9. Every settings object that exists when [QChemBaseTask.compute],
    [QChemKoopmanError.compute] or [QChemLRTDDFT.compute] is called with a
    settings argument, the caller's among them, is the same after the call,
    however the call ends.  The defaults are written into a copy behind
    another reference: after [QChemBaseTask.compute] that copy holds the
    settings [defaults] returned. *)
Theorem compute_keeps_settings `{External} `{Process} (self : qchem_task)
    (engine : QChem) (io gs_io cation_io anion_io : IO) (molecule : Molecule)
    (settings : nat) (arguments : option (list string))
    (num_nto_pairs n_x n_y n_z : Z) (w : world) (r : nat) (S : Settings) :
  settings_heap w !! r = Some S →
  settings_heap
    (snd (QChemBaseTask_compute self engine io molecule (Some settings) arguments w))
    !! r = Some S
  ∧ (∀ merged, r = settings → defaults self S = Ok merged →
       ∃ s : nat,
         s ≠ settings
         ∧ settings_heap
             (snd (QChemBaseTask_compute self engine io molecule (Some settings)
                     arguments w)) !! s = Some merged)
  ∧ settings_heap
      (snd (QChemKoopmanError_compute engine gs_io cation_io anion_io molecule
              (Some settings) w)) !! r = Some S
  ∧ settings_heap
      (snd (QChemLRTDDFT_compute engine io molecule (Some settings)
              num_nto_pairs n_x n_y n_z w)) !! r = Some S.
Proof.
  intros Hr. repeat split.
  - destruct (keeps_QChemBaseTask_compute (settings_heap w) self engine io
                molecule (Some settings) arguments w) as [Hsub _]; [done|].
    by apply (lookup_weaken _ _ _ _ Hr Hsub).
  - intros merged -> Hmerged. by eapply compute_private_copy.
  - destruct (keeps_QChemKoopmanError_compute (settings_heap w) engine gs_io
                cation_io anion_io molecule (Some settings) w) as [Hsub _]; [done|].
    by apply (lookup_weaken _ _ _ _ Hr Hsub).
  - destruct (keeps_QChemLRTDDFT_compute (settings_heap w) engine io molecule
                (Some settings) num_nto_pairs n_x n_y n_z w) as [Hsub _]; [done|].
    by apply (lookup_weaken _ _ _ _ Hr Hsub).
Qed.


Lemma compute_keeps_settings_witness :
  let S0 : Settings := {[ rem_method := SStr "b3lyp" ]} in
  settings_heap
    (snd (@QChemBaseTask_compute stub_external stub_process QChemSinglePoint
            qchem_default gs_io water (Some 0%nat) None (caller_world S0)))
    !! 0%nat = Some S0
  ∧ settings_heap
      (snd (@QChemKoopmanError_compute stub_external stub_process qchem_default
              gs_io cation_io anion_io water (Some 0%nat) (caller_world S0)))
      !! 0%nat = Some S0
  ∧ settings_heap
      (snd (@QChemLRTDDFT_compute stub_external stub_process qchem_default gs_io
              water (Some 0%nat) 1 50 50 50 (caller_world S0)))
      !! 0%nat = Some S0.
Proof.
  intros S0.
  destruct (@compute_keeps_settings stub_external stub_process QChemSinglePoint
              qchem_default gs_io gs_io cation_io anion_io water 0%nat None
              1 50 50 50 (caller_world S0) 0%nat S0)
    as (Hbase & _ & Hkoopman & Hlrtddft).
  - vm_compute. reflexivity.
  - split; [exact Hbase|split; [exact Hkoopman|exact Hlrtddft]].
Defined.

(** ** More on the [defaults] methods *)

(** The lookups of the merged settings, class by class. *)
Lemma defaults_merged_lookup (self : qchem_task) (S M : Settings)
    (k : list string) :
  defaults self S = Ok M → M !! k = merged_lookup self S k.
Proof.
  intros HM.
  destruct self; cbv beta iota delta [defaults] in HM;
    try discriminate HM; try (injection HM as <-).
  - by apply QChemAIMD_defaults_lookup.
  - apply QChemLRTDDFT_defaults_lookup.
  - apply QChemOptimize_defaults_lookup.
  - apply QChemPolarizability_defaults_lookup.
  - apply QChemVolume_defaults_lookup.
  - apply QChemSinglePoint_defaults_lookup.
  - apply QChemSinglePointFrontier_defaults_lookup.
Qed.

Lemma contains_true (s : Settings) (k : list string) :
  contains s k = true ↔ is_Some (s !! k).
Proof.
  rewrite contains_lookup. destruct (s !! k); split; try done; eauto.
Qed.

(** Every class has a default for the basis set and for the exchange. *)
Lemma default_table_basis (self : qchem_task) :
  self ≠ QChemBaseTask → is_Some (default_table self !! rem_basis).
Proof. destruct self; intros Hself; try done; vm_compute; eauto. Qed.

Lemma default_table_exchange (self : qchem_task) :
  self ≠ QChemBaseTask → is_Some (default_table self !! rem_exchange).
Proof. destruct self; intros Hself; try done; vm_compute; eauto. Qed.

(** X1. Whatever the caller gave, the settings a [defaults] method returns name
    a method or an exchange, and a basis set. *)
Theorem defaults_names_method_and_basis (self : qchem_task) (S M : Settings) :
  defaults self S = Ok M →
  (is_Some (M !! rem_exchange) ∨ is_Some (M !! rem_method))
  ∧ is_Some (M !! rem_basis).
Proof.
  intros HM.
  assert (Hself : self ≠ QChemBaseTask) by (by intros ->).
  pose proof (defaults_merged_lookup self S M rem_exchange HM) as Hex.
  pose proof (defaults_merged_lookup self S M rem_method HM) as Hme.
  pose proof (defaults_merged_lookup self S M rem_basis HM) as Hba.
  unfold merged_lookup in *. split.
  - destruct (S !! rem_method) as [v|] eqn:HSm.
    { right. rewrite Hme. eauto. }
    left. rewrite Hex. destruct (S !! rem_exchange); [eauto|].
    unfold applies. rewrite bool_decide_eq_true_2 by done.
    rewrite contains_lookup, HSm. simpl. by apply default_table_exchange.
  - rewrite Hba. destruct (S !! rem_basis); [eauto|].
    assert (Happ : applies self S rem_basis = true).
    { unfold applies. rewrite bool_decide_eq_false_2 by done.
      by destruct self. }
    rewrite Happ. by apply default_table_basis.
Qed.

Lemma defaults_names_method_and_basis_witness :
  (is_Some (QChemVolume_defaults {[ rem_method := SStr "b3lyp" ]} !! rem_exchange)
   ∨ is_Some (QChemVolume_defaults {[ rem_method := SStr "b3lyp" ]} !! rem_method))
  ∧ is_Some (QChemVolume_defaults {[ rem_method := SStr "b3lyp" ]} !! rem_basis).
Proof.
  apply (defaults_names_method_and_basis QChemVolume
           {[ rem_method := SStr "b3lyp" ]}).
  reflexivity.
Defined.

(** A second pass of the tests adds nothing to settings that already went
    through them. *)
Lemma merged_lookup_stable (self : qchem_task) (S M : Settings) :
  (∀ k, M !! k = merged_lookup self S k) →
  ∀ k, merged_lookup self M k = M !! k.
Proof.
  intros HM k. unfold merged_lookup at 1.
  destruct (M !! k) as [v|] eqn:HMk; [done|].
  destruct (default_table self !! k) as [d|] eqn:Hd;
    [|by destruct (applies self M k)].
  assert (S !! k = None ∧ applies self S k = false) as [HSk Happ].
  { pose proof (HM k) as Hk. rewrite HMk in Hk. unfold merged_lookup in Hk.
    destruct (S !! k); [done|]. rewrite Hd in Hk.
    by destruct (applies self S k). }
  assert (Hin : ∀ k', contains S k' = true → contains M k' = true).
  { intros k'. rewrite !contains_lookup, (HM k'). unfold merged_lookup.
    by destruct (S !! k'). }
  assert (Hnot : applies self M k = false); [|by rewrite Hnot].
  unfold applies in *.
  case_bool_decide as Hex.
  { apply negb_false_iff in Happ. by rewrite (Hin _ Happ). }
  destruct self; try discriminate Happ.
  case_bool_decide as Hveloc.
  { apply negb_false_iff in Happ. by rewrite (Hin _ Happ). }
  case_bool_decide as Htemp; [|discriminate Happ].
  rewrite (HM ["rem"; "aimd_init_veloc"]). unfold merged_lookup.
  destruct (S !! ["rem"; "aimd_init_veloc"]) as [v|] eqn:HSv; [done|].
  apply negb_false_iff in Happ.
  unfold applies. rewrite bool_decide_eq_false_2 by done.
  rewrite bool_decide_eq_true_2 by done. rewrite Happ. simpl.
  by rewrite (Hin _ Happ).
Qed.

(** [QChemAIMD.defaults] returns unless the initial velocity the caller
    gave is not a string. *)
Lemma QChemAIMD_defaults_returns (S : Settings) :
  match S !! ["rem"; "aimd_init_veloc"] with
  | Some (SInt _) | Some (SBool _) => QChemAIMD_defaults S = Raise AttributeError
  | _ => ∃ M, QChemAIMD_defaults S = Ok M
  end.
Proof.
  unfold QChemAIMD_defaults. cbv zeta.
  set (s5 := if negb (contains _ ["rem"; "aimd_steps"]) then _ else _).
  assert (H5 : s5 !! ["rem"; "aimd_init_veloc"] = S !! ["rem"; "aimd_init_veloc"]).
  { subst s5. rewrite !lookup_fill, lookup_fill_guarded.
    by destruct (S !! ["rem"; "aimd_init_veloc"]). }
  set (g := negb (contains s5 ["velocity"])).
  set (s6 := if _ && negb (contains s5 _) then _ else _).
  assert (H6 : s6 !! ["rem"; "aimd_init_veloc"] =
     match S !! ["rem"; "aimd_init_veloc"] with
     | Some x => Some x
     | None => if g then Some (SStr "thermal") else None
     end).
  { subst s6. rewrite lookup_fill_guarded_l, H5.
    by destruct (S !! ["rem"; "aimd_init_veloc"]). }
  rewrite H6. clearbody s6 s5 g.
  destruct (S !! ["rem"; "aimd_init_veloc"]) as [[v|n|b]|]; try done.
  - destruct (_ && _); eauto.
  - destruct g; [|eauto]. destruct (_ && _); eauto.
Qed.

(** X2. Running a [defaults] method on settings it has returned changes
    nothing: the settings are a fixed point of the method. *)
Theorem defaults_idempotent (self : qchem_task) (S M : Settings) :
  defaults self S = Ok M → defaults self M = Ok M.
Proof.
  intros HM.
  pose proof (λ k, defaults_merged_lookup self S M k HM) as Hlookup.
  assert (∃ M', defaults self M = Ok M') as [M' HM'].
  { destruct self; try discriminate HM; simpl; eauto.
    pose proof (QChemAIMD_defaults_returns M) as HretM.
    pose proof (QChemAIMD_defaults_returns S) as HretS.
    simpl in HM. rewrite (Hlookup ["rem"; "aimd_init_veloc"]) in HretM.
    unfold merged_lookup in HretM.
    destruct (S !! ["rem"; "aimd_init_veloc"]) as [[v|n|b]|]; try done;
      try congruence.
    destruct (applies _ _ _); done. }
  rewrite HM'. f_equal. apply map_eq. intros k.
  rewrite (defaults_merged_lookup self M M' k HM').
  by apply (merged_lookup_stable self S M).
Qed.

Lemma defaults_idempotent_witness :
  defaults QChemAIMD
    (<[ ["rem"; "aimd_temp"] := SInt 300 ]>
       (<[ ["rem"; "aimd_init_veloc"] := SStr "thermal" ]>
          (<[ ["rem"; "aimd_steps"] := SInt 10 ]>
             (<[ ["rem"; "time_step"] := SInt 1 ]>
                (<[ rem_jobtype := SStr "aimd" ]>
                   (<[ rem_basis := SStr "3-21G" ]>
                      (<[ rem_exchange := SStr "HF" ]> ∅)))))))
  = Ok (<[ ["rem"; "aimd_temp"] := SInt 300 ]>
       (<[ ["rem"; "aimd_init_veloc"] := SStr "thermal" ]>
          (<[ ["rem"; "aimd_steps"] := SInt 10 ]>
             (<[ ["rem"; "time_step"] := SInt 1 ]>
                (<[ rem_jobtype := SStr "aimd" ]>
                   (<[ rem_basis := SStr "3-21G" ]>
                      (<[ rem_exchange := SStr "HF" ]> ∅))))))).
Proof.
  apply (defaults_idempotent QChemAIMD ∅).
  reflexivity.
Defined.

(** X3. [QChemAIMD.defaults] raises [AttributeError] exactly when the caller
    gave an initial velocity that is not a string, whatever else the
    settings hold; on every other input it returns. *)
Theorem QChemAIMD_defaults_raises (S : Settings) :
  match S !! ["rem"; "aimd_init_veloc"] with
  | Some (SInt _) | Some (SBool _) =>
      defaults QChemAIMD S = Raise AttributeError
  | _ => ∃ M, defaults QChemAIMD S = Ok M
  end.
Proof. apply QChemAIMD_defaults_returns. Qed.

Lemma QChemSinglePoint_defaults_koopman (S : Settings) :
  QChemSinglePoint_defaults (QChemKoopmanError_defaults S)
  = QChemKoopmanError_defaults S.
Proof.
  apply map_eq. intros k.
  rewrite QChemSinglePoint_defaults_lookup. unfold merged_lookup.
  destruct (QChemKoopmanError_defaults S !! k) as [v|] eqn:HK; [done|].
  unfold applies. rewrite contains_lookup.
  rewrite QChemKoopmanError_defaults_lookup in HK.
  rewrite (QChemKoopmanError_defaults_lookup S rem_method).
  destruct (S !! k) as [v|] eqn:HSk; [done|].
  rewrite contains_lookup in HK.
  destruct (decide (k = rem_exchange)) as [->|Hex].
  - rewrite bool_decide_eq_true_2 by done.
    rewrite bool_decide_eq_true_2 in HK by done.
    destruct (S !! rem_method); [done|]. discriminate HK.
  - rewrite bool_decide_eq_false_2 by done.
    rewrite bool_decide_eq_false_2 in HK by done.
    simpl in HK. repeat (apply lookup_insert_None in HK as [HK ?]).
    simpl. repeat (apply lookup_insert_None; split; [|done]). done.
Qed.

(** X4. The single-point tasks [QChemKoopmanError.compute] runs add nothing to
    the settings it hands them: its own defaults have filled every key
    theirs would. *)
Theorem single_point_defaults_after_koopman (S : Settings) :
  QChemSinglePoint_defaults (QChemKoopmanError_defaults S)
  = QChemKoopmanError_defaults S
  ∧ QChemSinglePointFrontier_defaults (QChemKoopmanError_defaults S)
    = QChemKoopmanError_defaults S.
Proof. split; apply QChemSinglePoint_defaults_koopman. Qed.

(** The lookups in what [QChemMinimizeKoopmanError.defaults] returns. *)
Lemma QChemMinimizeKoopmanError_defaults_lookup (S : Settings) (k : list string) :
  QChemMinimizeKoopmanError_defaults S !! k
  = match S !! k with
    | Some v => Some v
    | None => QChemMinimizeKoopmanError_table !! k
    end.
Proof.
  assert (Hfold : QChemMinimizeKoopmanError_defaults S =
    foldl fill_step S
      [(rem_basis, SStr "3-21G"); (rem_jobtype, SStr "sp");
       (rem_exchange, SStr "gen"); (["rem"; "lrc_dft"], SBool true);
       (["rem"; "src_dft"], SInt 2)]).
  { cbv beta delta [QChemMinimizeKoopmanError_defaults].
    name_lets; fold_fills. rewrite <- !foldl_step. reflexivity. }
  rewrite Hfold. apply lookup_fill_all.
Qed.

(** X5. [QChemMinimizeKoopmanError.defaults] follows the plain override law:
    the caller's value where there is one, the value of its table
    elsewhere, the exchange included (no test on the method guards it
    here). *)
Theorem QChemMinimizeKoopmanError_defaults_override_law (S : Settings) :
  override_law QChemMinimizeKoopmanError_table S
    (QChemMinimizeKoopmanError_defaults S).
Proof. intros k. apply QChemMinimizeKoopmanError_defaults_lookup. Qed.

(** X6. The Koopman task built inside the objective of
    [QChemMinimizeKoopmanError.compute] adds nothing to the settings of the
    objective: the exchange stays the one chosen there. *)
Theorem koopman_defaults_after_minimize (S : Settings) :
  QChemKoopmanError_defaults (QChemMinimizeKoopmanError_defaults S)
  = QChemMinimizeKoopmanError_defaults S.
Proof.
  apply map_eq. intros k.
  rewrite QChemKoopmanError_defaults_lookup.
  destruct (QChemMinimizeKoopmanError_defaults S !! k) as [v|] eqn:HK; [done|].
  rewrite QChemMinimizeKoopmanError_defaults_lookup in HK.
  destruct (S !! k) as [v|]; [done|].
  unfold QChemMinimizeKoopmanError_table in HK.
  simpl in HK. repeat (apply lookup_insert_None in HK as [HK ?]).
  rewrite bool_decide_eq_false_2 by done.
  simpl. repeat (apply lookup_insert_None; split; [|done]). done.
Qed.

(** ** More on [QChem.command]: what [shlex.split] does to the elements *)

Section shlex_elements.
Implicit Types (w e token rest : string) (ts : list string).

Lemma emit_ok token (r : result (list string)) ts :
  emit token r = Ok ts → ∃ ts', r = Ok ts' ∧ ts = token :: ts'.
Proof. destruct r as [ts'|x]; [|done]. intros [= <-]. eauto. Qed.

Lemma foldr_emit_app ts (l : list string) :
  foldr emit (Ok l) ts = Ok (ts ++ l)%list.
Proof. induction ts as [|t ts IH]; simpl; [done|]. by rewrite IH. Qed.

Lemma foldr_emit_raise ts (x : exn) : foldr emit (Raise x) ts = Raise x.
Proof. induction ts as [|t ts IH]; simpl; [done|]. by rewrite IH. Qed.

Lemma nonempty_false token : nonempty token = false → token = "".
Proof. by destruct token. Qed.

(** Whatever the tokenizer is in the middle of, a text it reads to the end
    without an error is read the same way in front of a gap, and leaves the
    tokenizer between two tokens. *)
Lemma read_tokens_gap e : ∀ st token quoted ts rest,
  at_gap rest →
  read_tokens st token quoted e = Ok ts →
  read_tokens st token quoted (e ++ rest)
  = foldr emit (read_tokens StSpace "" false rest) ts.
Proof.
  induction e as [|c e IH]; intros st token quoted ts rest Hgap Hread.
  - change ("" ++ rest) with rest.
    assert (Hts : (st = StSpace ∨ st = StWord)
                  ∧ ts = if nonempty token || quoted then [token] else []).
    { destruct st; simpl in Hread; try discriminate Hread;
        (split; [by eauto|]); by destruct (nonempty token || quoted); simplify_eq. }
    destruct Hts as [Hst ->].
    destruct Hgap as [->|[rest' ->]].
    + destruct Hst as [->| ->]; simpl; by destruct (nonempty token || quoted).
    + rewrite read_space.
      destruct Hst as [->| ->]; simpl;
        destruct (nonempty token || quoted) eqn:Hne; simpl; try done;
        apply orb_false_iff in Hne as [Hne ->];
        by rewrite (nonempty_false _ Hne).
  - rewrite append_cons. destruct st as [| |q|esc escapedstate]; simpl in *.
    + destruct (is_whitespace c).
      * destruct (nonempty token || quoted).
        -- apply emit_ok in Hread as (ts' & Hread & ->).
           simpl. by rewrite (IH _ _ _ _ _ Hgap Hread).
        -- by apply IH.
      * destruct (is_escape c); [by apply IH|].
        destruct (is_quote c); by apply IH.
    + destruct (is_whitespace c).
      * destruct (nonempty token || quoted).
        -- apply emit_ok in Hread as (ts' & Hread & ->).
           simpl. by rewrite (IH _ _ _ _ _ Hgap Hread).
        -- by apply IH.
      * destruct (is_quote c); [by apply IH|].
        destruct (is_escape c); by apply IH.
    + destruct (bool_decide (c = q)); [by apply IH|].
      destruct (is_escape c && is_escapedquote q); by apply IH.
    + by apply IH.
Qed.

Lemma shlex_split_tokenizes e ts : shlex_split e = Ok ts → tokenizes e ts.
Proof. intros He rest Hgap. by apply read_tokens_gap. Qed.

(** Two texts joined by a blank are read one after the other. *)
Lemma shlex_split_join e1 e2 ts1 :
  shlex_split e1 = Ok ts1 →
  shlex_split (e1 ++ " " ++ e2) = foldr emit (shlex_split e2) ts1.
Proof.
  intros H1. unfold shlex_split.
  rewrite (shlex_split_tokenizes e1 ts1 H1) by (right; eauto).
  by rewrite read_space.
Qed.

Lemma concat_app_nonempty (es1 es2 : list string) :
  es1 ≠ [] → es2 ≠ [] →
  String.concat " " (es1 ++ es2)%list
  = String.concat " " es1 ++ " " ++ String.concat " " es2.
Proof.
  intros H1 H2. induction es1 as [|e es1 IH]; [done|].
  destruct es1 as [|e' es1].
  - destruct es2 as [|e2 es2]; [done|]. reflexivity.
  - change (String.concat " " ((e :: e' :: es1) ++ es2)%list)
      with (e ++ " " ++ String.concat " " ((e' :: es1) ++ es2)%list).
    rewrite IH by done.
    change (String.concat " " (e :: e' :: es1))
      with (e ++ " " ++ String.concat " " (e' :: es1)).
    by rewrite !append_assoc.
Qed.

(** Inside single quotes every character is kept, up to the closing
    quote. *)
Lemma read_single_quoted s : ∀ token rest,
  free_of "'" s = true →
  read_tokens (StQuote "'") token true (s ++ String "'" rest)
  = read_tokens StWord (token ++ s) true rest.
Proof.
  induction s as [|c s IH]; intros token rest Hs.
  - rewrite append_nil_r. reflexivity.
  - simpl in Hs. apply andb_true_iff in Hs as [Hc Hs].
    apply negb_true_iff in Hc. rewrite append_cons. simpl.
    rewrite Hc, andb_false_r, IH by done. by rewrite append_snoc.
Qed.

Lemma tokenizes_single_quoted s :
  free_of "'" s = true → tokenizes (String "'" (s ++ "'")) [s].
Proof.
  intros Hs rest Hgap. rewrite append_cons, append_assoc.
  change ("'" ++ rest) with (String "'" rest).
  change (read_tokens StSpace "" false (String "'" (s ++ String "'" rest)))
    with (read_tokens (StQuote "'") "" false (s ++ String "'" rest)).
  destruct s as [|c s].
  - change ("" ++ String "'" rest) with (String "'" rest).
    change (read_tokens (StQuote "'") "" false (String "'" rest))
      with (read_tokens StWord "" true rest).
    destruct Hgap as [->|[rest' ->]]; reflexivity.
  - simpl in Hs. apply andb_true_iff in Hs as [Hc Hs].
    apply negb_true_iff in Hc. rewrite append_cons. simpl.
    rewrite Hc, andb_false_r.
    rewrite read_single_quoted by done.
    change ("" ++ String c "") with (String c "").
    rewrite append_cons. change ("" ++ s) with s.
    destruct Hgap as [->|[rest' ->]]; simpl; rewrite ?orb_true_r; reflexivity.
Qed.

(** A quote that is never closed: the end of the text is reached inside
    the quotes. *)
Lemma read_unclosed q s : ∀ token quoted,
  free_of q s = true → free_of "\" s = true →
  read_tokens (StQuote q) token quoted s = Raise ValueError.
Proof.
  induction s as [|c s IH]; intros token quoted Hq Hesc; [done|].
  simpl in Hq, Hesc.
  apply andb_true_iff in Hq as [Hc Hq]. apply negb_true_iff in Hc.
  apply andb_true_iff in Hesc as [He Hesc]. apply negb_true_iff in He.
  simpl. rewrite Hc. unfold is_escape. rewrite He. simpl. by apply IH.
Qed.

Lemma shlex_split_unclosed a q b :
  plain_chars a = true → is_quote q = true →
  free_of q b = true → free_of "\" b = true →
  shlex_split (a ++ String q b) = Raise ValueError.
Proof.
  intros Ha Hquote Hq Hesc. unfold shlex_split.
  assert (Hq' : is_whitespace q = false ∧ is_escape q = false).
  { unfold is_quote in Hquote. apply orb_true_iff in Hquote.
    destruct Hquote as [Hquote|Hquote]; apply bool_decide_eq_true in Hquote;
      by subst q. }
  destruct Hq' as [Hws Hescq].
  destruct a as [|c a].
  - change ("" ++ String q b) with (String q b). simpl.
    rewrite Hws, Hescq, Hquote. by apply read_unclosed.
  - rewrite read_plain by done. simpl.
    rewrite Hws, Hquote. by apply read_unclosed.
Qed.
End shlex_elements.

Section command_elements.
Implicit Types (self : QChem) (inp out work_dir : string).

Lemma command_unfold self inp out work_dir call_arguments :
  command self inp out work_dir call_arguments
  = shlex_split
      (String.concat " " (command_cmd self call_arguments ++ [inp; out])%list).
Proof. reflexivity. Qed.

Lemma command_cmd_nonempty self call_arguments :
  command_cmd self call_arguments ≠ [].
Proof.
  unfold command_cmd. cbv zeta.
  destruct (save self), (arguments self), (num_processors self),
    (num_threads self), (truthy (savename self)); simpl; done.
Qed.

(** The engine's own elements are read first, then the two files. *)
Lemma command_head self inp out work_dir call_arguments (head : list string) :
  shlex_split (String.concat " " (command_cmd self call_arguments)) = Ok head →
  command self inp out work_dir call_arguments
  = foldr emit (shlex_split (inp ++ " " ++ out)) head.
Proof.
  intros Hhead. rewrite command_unfold.
  rewrite concat_app_nonempty by (done || apply command_cmd_nonempty).
  by apply shlex_split_join.
Qed.
End command_elements.

(** X7. Every part of the command line is split on its own: the result is what
    [shlex.split] makes of the engine's elements, then of the name of the
    input file, then of the name of the output file. *)
Theorem command_splits_each_part (self : QChem) (inp out work_dir : string)
    (call_arguments : option (list string)) (head ti to : list string) :
  shlex_split (String.concat " " (command_cmd self call_arguments)) = Ok head →
  shlex_split inp = Ok ti →
  shlex_split out = Ok to →
  command self inp out work_dir call_arguments = Ok (head ++ ti ++ to)%list.
Proof.
  intros Hhead Hinp Hout.
  rewrite (command_head _ _ _ _ _ head Hhead).
  rewrite (shlex_split_join inp out ti Hinp), Hout.
  by rewrite !foldr_emit_app.
Qed.

Lemma command_splits_each_part_witness :
  command qchem_full "'my input.qc'" "out\ put.qc" "." None
  = Ok ["qchem"; "-save"; "-archive"; "-np"; "4"; "-nt"; "2"; "job";
        "my input.qc"; "out put.qc"].
Proof.
  apply (command_splits_each_part qchem_full "'my input.qc'" "out\ put.qc" "."
           None ["qchem"; "-save"; "-archive"; "-np"; "4"; "-nt"; "2"; "job"]
           ["my input.qc"] ["out put.qc"]); reflexivity.
Defined.

(** X8. A file name with blanks in it is not one argument: the command line
    holds each of its words as an argument of its own. *)
Theorem command_splits_file_name (self : QChem) (ws : list string)
    (out work_dir : string) (call_arguments : option (list string))
    (head : list string) :
  shlex_split (String.concat " " (command_cmd self call_arguments)) = Ok head →
  Forall (λ w, plain w = true) ws →
  plain out = true →
  command self (String.concat " " ws) out work_dir call_arguments
  = Ok (head ++ ws ++ [out])%list.
Proof.
  intros Hhead Hws Hout.
  rewrite (command_head _ _ _ _ _ head Hhead).
  rewrite (shlex_split_join _ out ws
             (tokenize_all_split ws ws (tokenize_all_plain ws Hws))).
  rewrite (tokenizes_split out [out] (tokenizes_plain out Hout)).
  by rewrite !foldr_emit_app.
Qed.

Lemma command_splits_file_name_witness :
  command qchem_default "my input.qc" "out.qc" "." None
  = Ok ["qchem"; "my"; "input.qc"; "out.qc"].
Proof.
  apply (command_splits_file_name qchem_default ["my"; "input.qc"] "out.qc" "."
           None ["qchem"]); [reflexivity| |reflexivity].
  repeat constructor.
Defined.

(** X9. A name the caller wrote in single quotes comes through as one argument,
    blanks, backslashes and double quotes included, and without the
    quotes. *)
Theorem command_keeps_quoted_file_name (self : QChem) (name out work_dir : string)
    (call_arguments : option (list string)) (head : list string) :
  shlex_split (String.concat " " (command_cmd self call_arguments)) = Ok head →
  free_of "'" name = true →
  plain out = true →
  command self (String "'" (name ++ "'")) out work_dir call_arguments
  = Ok (head ++ [name; out])%list.
Proof.
  intros Hhead Hname Hout.
  rewrite (command_head _ _ _ _ _ head Hhead).
  rewrite (shlex_split_join _ out [name]
             (tokenizes_split _ _ (tokenizes_single_quoted name Hname))).
  rewrite (tokenizes_split out [out] (tokenizes_plain out Hout)).
  by rewrite !foldr_emit_app.
Qed.

Lemma command_keeps_quoted_file_name_witness :
  command qchem_default "'my input.qc'" "out.qc" "." None
  = Ok ["qchem"; "my input.qc"; "out.qc"].
Proof.
  apply (command_keeps_quoted_file_name qchem_default "my input.qc" "out.qc" "."
           None ["qchem"]); reflexivity.
Defined.

(** X10. An output file name with a quote that is never closed (an apostrophe,
    say) makes [command] raise [ValueError]: no command line is built. *)
Theorem command_unclosed_quote (self : QChem) (inp a b work_dir : string)
    (q : ascii) (call_arguments : option (list string))
    (head ti : list string) :
  shlex_split (String.concat " " (command_cmd self call_arguments)) = Ok head →
  shlex_split inp = Ok ti →
  plain_chars a = true → is_quote q = true →
  free_of q b = true → free_of "\" b = true →
  command self inp (a ++ String q b) work_dir call_arguments = Raise ValueError.
Proof.
  intros Hhead Hinp Ha Hquote Hq Hesc.
  rewrite (command_head _ _ _ _ _ head Hhead).
  rewrite (shlex_split_join inp _ ti Hinp).
  rewrite (shlex_split_unclosed a q b Ha Hquote Hq Hesc).
  by rewrite !foldr_emit_raise.
Qed.

Lemma command_unclosed_quote_witness :
  command qchem_default "in.qc" "water's.out" "." None = Raise ValueError.
Proof.
  apply (command_unclosed_quote qchem_default "in.qc" "water" "s.out" "." "'"
           None ["qchem"] ["in.qc"]); reflexivity.
Defined.

(** ** More on the parsers: frontier orbitals and excitations *)

Section frontier.








Lemma frontier_orbitals_short (pairs : list (list Q * Z)) (moe : list Q) (h : Z) :
  (moe, h) ∈ pairs →
  length (py_slice moe h (h + 2)) ≠ 2%nat →
  frontier_orbitals pairs = Raise ValueError.
Proof.
  intros Hin Hlen. induction pairs as [|[moe' h'] pairs IH].
  - by apply elem_of_nil in Hin.
  - simpl. apply elem_of_cons in Hin as [[= <- <-]|Hin].
    + by destruct (py_slice moe h (h + 2)) as [|x [|y [|z l]]].
    + rewrite (IH Hin).
      by destruct (py_slice moe' h' (h' + 2)) as [|x [|y [|z l]]].
Qed.

(** [moe[h : h + 2]] is short of two energies when [h] is the index of the
    last orbital or beyond, and when it is [-1] or [-2]. *)
Lemma py_slice_short (moe : list Q) (h : Z) :
  (-2 <= h)%Z →
  (h < 0 ∨ Z.of_nat (length moe) < h + 2)%Z →
  length (py_slice moe h (h + 2)) ≠ 2%nat.
Proof.
  intros Hlow Hh. unfold py_slice, py_index. cbv zeta.
  rewrite length_take, length_drop.
  destruct (h <? 0)%Z eqn:Hneg; destruct (h + 2 <? 0)%Z eqn:Hneg2; lia.
Qed.
End frontier.



(** X12. A spin channel without a virtual orbital (its HOMO is the last orbital
    of the list) or without an occupied one (HOMO index [-1]) makes
    [QChemSinglePointFrontier.parse] raise [ValueError]; the
    [except AttributeError] of the method does not catch it, so no null
    result comes back. *)
Theorem frontier_short_channel_raises `{External} (output : option string)
    (data : ccData) (en : Q) (moes : list (list Q)) (his : list Z)
    (moe : list Q) (h : Z) :
  ccread output = Some data →
  scfenergies data = Some en →
  moenergies data = Some moes →
  homos data = Some his →
  (moe, h) ∈ zip moes his →
  (-2 <= h)%Z →
  (h < 0 ∨ Z.of_nat (length moe) < h + 2)%Z →
  parse QChemSinglePointFrontier output = Raise ValueError.
Proof.
  intros Hdata Hen Hmoes Hhis Hin Hlow Hh. simpl.
  unfold QChemSinglePointFrontier_parse. rewrite Hdata, Hen, Hmoes, Hhis.
  rewrite (frontier_orbitals_short _ moe h Hin); [done|].
  by apply py_slice_short.
Qed.

Lemma frontier_short_channel_raises_witness :
  @parse helium_external QChemSinglePointFrontier (Some "he.out")
  = Raise ValueError.
Proof.
  apply (@frontier_short_channel_raises helium_external (Some "he.out")
           (energy_data (-77) (Some [[-24]%Q]) (Some [0%Z]))
           (-77)%Q [[-24]%Q] [0%Z] [(-24)%Q] 0%Z); try reflexivity.
  - apply list_elem_of_here.
  - vm_compute. discriminate.
  - right. vm_compute. reflexivity.
Defined.

(** ** [readlines] and the text of a file *)

Lemma readlines_go_join (text line : string) :
  String.concat "" (readlines_go line text) = line ++ text.
Proof.
  revert line. induction text as [|c text IH]; intros line; simpl.
  - destruct line as [|a line]; simpl; [done|]. by rewrite append_nil_r.
  - case_bool_decide as Hc.
    + assert (Hcons : ∀ (l : string) (ls : list string),
                String.concat "" (l :: ls) = l ++ String.concat "" ls).
      { intros l [|l' ls]; simpl; [by rewrite append_nil_r|done]. }
      rewrite Hcons, IH. by rewrite append_snoc.
    + rewrite IH. by rewrite append_snoc.
Qed.

Lemma universal_newlines_id (text : string) :
  free_of "013" text = true → universal_newlines text = text.
Proof.
  induction text as [|c text IH]; [done|]. simpl.
  intros [Hc Htext]%andb_true_iff. apply negb_true_iff in Hc.
  rewrite Hc. by rewrite IH.
Qed.

(** X13. [QChemAIMD.parse] returns the output as text mode reads it: the
    lines joined again are the content of the file with every carriage
    return and line feed pair and every single carriage return turned into
    one line feed, and nothing else changed; no line is lost on the way.  An
    output without carriage returns comes back character for character. *)
Theorem readlines_join `{External} (text : string) :
  String.concat "" (readlines text) = universal_newlines text
  ∧ parse QChemAIMD (Some text) = Ok (PText (universal_newlines text))
  ∧ (free_of "013" text = true → parse QChemAIMD (Some text) = Ok (PText text)).
Proof.
  assert (Hjoin : String.concat "" (readlines text) = universal_newlines text).
  { unfold readlines. by rewrite readlines_go_join. }
  assert (Hparse : parse QChemAIMD (Some text)
                   = Ok (PText (universal_newlines text))).
  { simpl. unfold QChemAIMD_parse. by rewrite Hjoin. }
  split; [done|]. split; [done|].
  intros Hfree. by rewrite Hparse, universal_newlines_id.
Qed.

Lemma readlines_join_witness :
  String.concat "" (readlines (String "a" (String "013" (String "010" "b"))))
  = String "a" (String "010" "b")
  ∧ free_of "013" "E = 1" = true
  ∧ @parse stub_external QChemAIMD (Some "E = 1") = Ok (PText "E = 1").
Proof.
  split; [|split; [reflexivity|]].
  - exact (proj1 (@readlines_join stub_external
                    (String "a" (String "013" (String "010" "b"))))).
  - exact (proj2 (proj2 (@readlines_join stub_external "E = 1")) eq_refl).
Defined.

(** ** More on [compute]: what is written, run and returned *)

Section compute_run.
Context `{External} `{Process}.



Lemma bind_ok {A B : Type} (m : M A) (k : A → M B) (w w' : world) (b : B) :
  bind m k w = (Ok b, w') →
  ∃ a w1, m w = (Ok a, w1) ∧ k a w1 = (Ok b, w').
Proof.
  unfold bind. destruct (m w) as [[a|e] w1]; [eauto|discriminate].
Qed.

Lemma with_io_ok {A : Type} (io : IO) (body : M A) (w w' : world) (a : A) :
  with_io io body w = (Ok a, w') →
  ∃ w1 w2, body w1 = (Ok a, w2).
Proof.
  unfold with_io, bind. simpl.
  destruct (body _) as [r w2] eqn:Hbody. intros [= -> <-]. eauto.
Qed.

Lemma QChemLRTDDFT_parse_ok (output : option string) (p : parsed) :
  QChemLRTDDFT_parse output = Ok p → p = PSpectrum [].
Proof.
  unfold QChemLRTDDFT_parse. repeat case_match; intros [=]; done.
Qed.
End compute_run.

(** ** One compute call, case by case *)







(** X15. [QChemLRTDDFT.compute] never hands back a molecule with an excited
    state: building the first [Excitation] raises, so a call that returns
    has read an output without any. *)
Theorem QChemLRTDDFT_compute_no_excitation `{External} `{Process}
    (engine : QChem) (io : IO) (molecule : Molecule) (settings : option nat)
    (num_nto_pairs n_x n_y n_z : Z) (w : world) (m : Molecule) :
  fst (QChemLRTDDFT_compute engine io molecule settings
         num_nto_pairs n_x n_y n_z w) = Ok m →
  electronic_excitations m = Some [].
Proof.
  destruct (QChemLRTDDFT_compute _ _ _ _ _ _ _ _ w) as [r w'] eqn:Hrun.
  simpl. intros ->. unfold QChemLRTDDFT_compute in Hrun.
  apply bind_ok in Hrun as (s & w1 & _ & Hrun).
  apply bind_ok in Hrun as (s' & w2 & _ & Hrun).
  apply bind_ok in Hrun as (inp' & w3 & _ & Hrun).
  apply with_io_ok in Hrun as (w4 & w5 & Hrun).
  apply bind_ok in Hrun as (? & w6 & _ & Hrun).
  apply bind_ok in Hrun as (? & w7 & _ & Hrun).
  apply bind_ok in Hrun as (excitations & w8 & Hparse & Hrun).
  injection Hrun as <- _.
  unfold parse_file in Hparse.
  apply bind_ok in Hparse as (? & w9 & _ & Hparse).
  injection Hparse as Hparse _. simpl in Hparse.
  by rewrite (QChemLRTDDFT_parse_ok _ _ Hparse).
Qed.

Lemma QChemLRTDDFT_compute_no_excitation_witness :
  fst (@QChemLRTDDFT_compute no_roots_external stub_process qchem_default
         gs_io water None 0 50 50 50 (caller_world ∅))
  = Ok {| atomic_numbers := atomic_numbers water; charge := charge water;
          multiplicity := multiplicity water;
          electronic_excitations := Some [] |}
  ∧ electronic_excitations
      {| atomic_numbers := atomic_numbers water; charge := charge water;
         multiplicity := multiplicity water;
         electronic_excitations := Some [] |} = Some [].
Proof.
  assert (Hrun :
    fst (@QChemLRTDDFT_compute no_roots_external stub_process qchem_default
           gs_io water None 0 50 50 50 (caller_world ∅))
    = Ok {| atomic_numbers := atomic_numbers water; charge := charge water;
            multiplicity := multiplicity water;
            electronic_excitations := Some [] |}).
  { vm_compute. reflexivity. }
  split; [exact Hrun|].
  exact (@QChemLRTDDFT_compute_no_excitation no_roots_external stub_process
           qchem_default gs_io water None 0 50 50 50 (caller_world ∅) _ Hrun).
Defined.

(** ** More on [QChemKoopmanError.compute] *)

Section koopman_run.
Context `{External} `{Process}.


Lemma Qsquare_nonneg (x : Q) : (0 <= x ^ 2)%Q.
Proof. destruct x as [n d]. unfold Qle. simpl. nia. Qed.

Lemma koopman_error_ok (neutral homo lumo cation anion : option Q) (v : Q) :
  koopman_error neutral homo lumo cation anion = Ok v →
  ∃ x, (0 <= x)%Q ∧ v = np_sqrt x.
Proof.
  unfold koopman_error.
  destruct neutral as [n|], anion as [a|], cation as [c|], homo as [h|];
    try discriminate.
  cbv zeta. destruct (Qlt_le_dec 0 (n - a)) as [Hea|Hea].
  - destruct lumo as [l|]; [|discriminate]. intros [= <-].
    eexists. split; [|reflexivity].
    change 0%Q with (0 + 0)%Q. apply Qplus_le_compat; apply Qsquare_nonneg.
  - intros [= <-]. eexists. split; [|reflexivity]. apply Qsquare_nonneg.
Qed.

Lemma koopman_error_missing (neutral homo lumo cation anion : option Q) :
  neutral = None ∨ homo = None ∨ cation = None ∨ anion = None →
  koopman_error neutral homo lumo cation anion = Raise TypeError.
Proof.
  unfold koopman_error.
  intros [-> | [-> | [-> | ->]]]; by repeat case_match.
Qed.
End koopman_run.

(** X16. The number [QChemKoopmanError.compute] returns is the square root of a
    number that is not negative: the sum of one or two squares. *)
Theorem QChemKoopmanError_compute_sqrt_nonneg `{External} `{Process}
    (engine : QChem) (gs_io cation_io anion_io : IO) (molecule : Molecule)
    (settings : option nat) (w w' : world) (v : Q) :
  QChemKoopmanError_compute engine gs_io cation_io anion_io molecule settings w
  = (Ok v, w') →
  ∃ x, (0 <= x)%Q ∧ v = np_sqrt x.
Proof.
  unfold QChemKoopmanError_compute. intros Hrun.
  apply bind_ok in Hrun as ([[neutral cation] anion] & w1 & _ & Hrun).
  destruct neutral; try discriminate Hrun.
  destruct cation; try discriminate Hrun.
  destruct anion; try discriminate Hrun.
  injection Hrun as Hrun _. by apply koopman_error_ok in Hrun.
Qed.

Lemma QChemKoopmanError_compute_sqrt_nonneg_witness :
  ∃ x, (0 <= x)%Q
       ∧ ((12 - 10 + -5) ^ 2 + (10 - 9 + 1) ^ 2)%Q = @np_sqrt stub_external x.
Proof.
  assert (Hrun :
    @QChemKoopmanError_compute stub_external stub_process qchem_default
      gs_io cation_io anion_io water (Some 0%nat) (caller_world ∅)
    = (Ok ((12 - 10 + -5) ^ 2 + (10 - 9 + 1) ^ 2)%Q,
       snd (@QChemKoopmanError_compute stub_external stub_process qchem_default
              gs_io cation_io anion_io water (Some 0%nat) (caller_world ∅)))).
  { vm_compute. reflexivity. }
  exact (@QChemKoopmanError_compute_sqrt_nonneg stub_external stub_process
           _ _ _ _ _ _ _ _ _ Hrun).
Defined.

(** X17. When one of the single-point runs comes back without its energy (the
    null result of its parser), [QChemKoopmanError.compute] raises instead
    of returning a number. *)
Theorem QChemKoopmanError_compute_missing_energy `{External} `{Process}
    (engine : QChem) (gs_io cation_io anion_io : IO) (molecule : Molecule)
    (settings : option nat) (w w' : world)
    (neutral homo lumo cation anion : option Q) :
  QChemKoopmanError_single_points engine gs_io cation_io anion_io molecule settings w
  = (Ok (PFrontier neutral homo lumo, PEnergy cation, PEnergy anion), w') →
  neutral = None ∨ homo = None ∨ cation = None ∨ anion = None →
  ∃ e, QChemKoopmanError_compute engine gs_io cation_io anion_io molecule
         settings w = (Raise e, w').
Proof.
  intros Hout Hnone. exists TypeError.
  unfold QChemKoopmanError_compute, bind, lift. rewrite Hout.
  by rewrite koopman_error_missing.
Qed.

Lemma QChemKoopmanError_compute_missing_energy_witness :
  ∃ e, fst (@QChemKoopmanError_compute stub_external stub_process qchem_default
              gs_io empty_io anion_io water (Some 0%nat) (caller_world ∅))
       = Raise e.
Proof.
  assert (Hout :
    @QChemKoopmanError_single_points stub_external stub_process qchem_default
      gs_io empty_io anion_io water (Some 0%nat) (caller_world ∅)
    = (Ok (PFrontier (Some 10%Q) (Some (-5)%Q) (Some 1%Q),
           PEnergy None, PEnergy (Some 9%Q)),
       snd (@QChemKoopmanError_single_points stub_external stub_process
              qchem_default gs_io empty_io anion_io water (Some 0%nat)
              (caller_world ∅)))).
  { vm_compute. reflexivity. }
  destruct (@QChemKoopmanError_compute_missing_energy stub_external stub_process
              _ _ _ _ _ _ _ _ _ _ _ _ _ Hout
              (or_intror (or_intror (or_introl eq_refl)))) as [e He].
  exists e. by rewrite He.
Defined.



(** ** More on [_nto_pairs] and [QChemInput.__add__] *)

Section nto_pairs.
Context `{External} `{Process}.



Lemma reads_str (inp : QChemInput) (w : world) (acc : string) :
  reads inp w acc → QChemInput_str inp w = (Ok acc, w).
Proof.
  unfold QChemInput_str. intros [->|(-> & d & -> & ->)]; done.
Qed.

Lemma fresh_ne (h : gmap nat Settings) (r : nat) (d : Settings) :
  h !! r = Some d → fresh (dom h) ≠ r.
Proof.
  intros Hr Heq. apply (is_fresh (dom h)). rewrite Heq.
  apply elem_of_dom. eauto.
Qed.


End nto_pairs.



(** ** [QChemInput]: the text of two inputs, the totals, a block *)

Section add.
Context `{External} `{Process}.

Lemma reads_grow (inp : QChemInput) (w : world) (acc : string) (S : Settings) :
  reads inp w acc →
  reads inp (snd (new_settings S w)) acc.
Proof.
  intros [Htext|(Htext & d & Hd & ->)]; [by left|right].
  split; [done|]. exists d. split; [|done]. simpl.
  rewrite lookup_insert_ne; [done|]. by eapply fresh_ne.
Qed.

Lemma QChemInput_add_run (a b : QChemInput) (w : world) (sa sb : string) :
  reads a w sa → reads b w sb →
  QChemInput_add a b w
  = (Ok {| molecules := []; settings := fresh (dom (settings_heap w));
           text := Some (sa ++ job_separator ++ sb) |},
     snd (new_settings ∅ w)).
Proof.
  intros Ha Hb. unfold QChemInput_add, bind.
  by rewrite (reads_str a w sa Ha), (reads_str b w sb Hb).
Qed.
End add.

(** X20. Adding inputs is associative on their text: [(a + b) + c] and
    [a + (b + c)] hold the same three jobs in the same order, each after
    the job separator. *)
Theorem QChemInput_add_assoc `{External} `{Process} (a b c : QChemInput)
    (w : world) (sa sb sc : string) :
  reads a w sa → reads b w sb → reads c w sc →
  ∃ l r w1 w2,
    (ab ←@ QChemInput_add a b ;; QChemInput_add ab c) w = (Ok l, w1)
    ∧ (bc ←@ QChemInput_add b c ;; QChemInput_add a bc) w = (Ok r, w2)
    ∧ text l = Some (sa ++ job_separator ++ sb ++ job_separator ++ sc)
    ∧ text r = text l.
Proof.
  intros Ha Hb Hc. unfold bind.
  rewrite (QChemInput_add_run a b w sa sb Ha Hb).
  rewrite (QChemInput_add_run b c w sb sc Hb Hc).
  erewrite (QChemInput_add_run _ c); [|by left|by apply reads_grow].
  erewrite (QChemInput_add_run a _); [|by apply reads_grow|by left].
  eexists _, _, _, _. split; [reflexivity|]. split; [reflexivity|].
  simpl. by rewrite !append_assoc.
Qed.

Lemma QChemInput_add_assoc_witness :
  ∃ l r w1 w2,
    (ab ←@ @QChemInput_add stub_process
             {| molecules := []; settings := 0%nat; text := Some "a" |}
             {| molecules := []; settings := 0%nat; text := Some "b" |} ;;
     @QChemInput_add stub_process ab
       {| molecules := []; settings := 0%nat; text := Some "c" |})
      (caller_world ∅) = (Ok l, w1)
    ∧ (bc ←@ @QChemInput_add stub_process
               {| molecules := []; settings := 0%nat; text := Some "b" |}
               {| molecules := []; settings := 0%nat; text := Some "c" |} ;;
       @QChemInput_add stub_process
         {| molecules := []; settings := 0%nat; text := Some "a" |} bc)
        (caller_world ∅) = (Ok r, w2)
    ∧ text l = Some ("a" ++ job_separator ++ "b" ++ job_separator ++ "c")
    ∧ text r = text l.
Proof.
  apply (@QChemInput_add_assoc stub_external stub_process); by left.
Defined.


(** X22. [QChemInput.__init__] never keeps a total multiplicity of zero, and the
    one it works out itself (none given, or zero given) is 1 for an even and
    2 for an odd total charge, whatever the multiplicities of the
    molecules. *)
Theorem QChemInput_init_total_multiplicity (molecules : list Molecule)
    (cs ms : option (list Z)) (tc tm : option Z) :
  let t := QChemInput_init_totals molecules cs ms tc tm in
  total_multiplicity t ≠ 0%Z
  ∧ (tm = None ∨ tm = Some 0%Z →
     (Z.even (total_charge t) = true ∧ total_multiplicity t = 1%Z)
     ∨ (Z.odd (total_charge t) = true ∧ total_multiplicity t = 2%Z)).
Proof.
  intros t. subst t. unfold QChemInput_init_totals. cbv zeta. simpl.
  set (c := or_int tc _).
  assert (Hmod : (Z.even c = true ∧ c mod 2 + 1 = 1)%Z
                 ∨ (Z.odd c = true ∧ c mod 2 + 1 = 2)%Z).
  { rewrite Zmod_even. rewrite <- (Z.negb_even c).
    destruct (Z.even c); [left|right]; done. }
  split.
  - unfold or_int. destruct tm as [n|].
    + destruct (n =? 0)%Z eqn:Hn; [|lia].
      destruct Hmod as [[_ ->]|[_ ->]]; done.
    + destruct Hmod as [[_ ->]|[_ ->]]; done.
  - intros [-> | ->]; simpl; done.
Qed.

Section block.

Lemma length_append (a b : string) :
  String.length (a ++ b) = (String.length a + String.length b)%nat.
Proof. induction a as [|c a IH]; [done|]. rewrite append_cons. simpl. lia. Qed.

Lemma len_append (a b : string) : len (a ++ b) = (len a + len b)%Z.
Proof. unfold len. rewrite length_append. lia. Qed.

Lemma length_blanks (m : nat) :
  String.length (string_of_list_ascii (replicate m " "%char)) = m.
Proof. induction m as [|m IH]; simpl; [done|]. by rewrite IH. Qed.

Lemma len_blanks (n : Z) : len (blanks n) = Z.max 0 n.
Proof. unfold len, blanks. rewrite length_blanks. lia. Qed.

Lemma foldl_max_ge_start (x : Z) (l : list Z) : (x <= foldl Z.max x l)%Z.
Proof.
  revert x. induction l as [|y l IH]; intros x; simpl; [lia|].
  specialize (IH (Z.max x y)). lia.
Qed.

Lemma foldl_max_ge (x : Z) (l : list Z) (y : Z) :
  y ∈ l → (y <= foldl Z.max x l)%Z.
Proof.
  revert x. induction l as [|z l IH]; intros x Hy.
  - by apply elem_of_nil in Hy.
  - simpl. apply elem_of_cons in Hy as [->|Hy]; [|by apply IH].
    pose proof (foldl_max_ge_start (Z.max x z) l). lia.
Qed.

Lemma foldl_max_elem (x : Z) (l : list Z) : foldl Z.max x l ∈ x :: l.
Proof.
  revert x. induction l as [|y l IH]; intros x; simpl.
  - apply list_elem_of_here.
  - specialize (IH (Z.max x y)).
    apply elem_of_cons in IH as [IH|IH].
    + rewrite IH. destruct (Z.max_spec x y) as [[_ ->]|[_ ->]];
        [apply list_elem_of_further, list_elem_of_here|apply list_elem_of_here].
    + by do 2 apply list_elem_of_further.
Qed.
End block.

(** X23. The call of [_block_str] raises [TypeError] exactly when a
    parameter of the block is named [block_name], and otherwise
    [ValueError] exactly when the block has no parameter; in the text it
    returns for the others the values stand in one column, one blank behind
    the longest key: every line is two blanks, the key and the padding, as
    long together as the longest key plus three, then the value. *)
Theorem block_str_aligned (block_name : string)
    (block_params : list (string * setting)) :
  match _block_str block_name block_params with
  | Raise e =>
      ("block_name" ∈ (block_params.*1) ∧ e = TypeError)
      ∨ (("block_name" ∉ (block_params.*1))
         ∧ block_params = [] ∧ e = ValueError)
  | Ok s =>
      ("block_name" ∉ (block_params.*1))
      ∧ ∃ L : Z,
          Exists (λ kv, len kv.1 = L) block_params
          ∧ Forall (λ kv, (len kv.1 <= L)%Z
                          ∧ len ("  " ++ kv.1 ++ blanks (L - len kv.1 + 1))
                            = (L + 3)%Z) block_params
          ∧ s = "$" ++ block_name ++ nl
                ++ String.concat ""
                     ((λ kv, "  " ++ kv.1 ++ blanks (L - len kv.1 + 1)
                             ++ str_setting kv.2 ++ nl) <$> block_params)
                ++ "$end" ++ nl
  end.
Proof.
  unfold _block_str. case_bool_decide as Hname; [by left|].
  destruct block_params as [|kv kvs]; [by right|].
  split; [done|]. cbv zeta.
  set (L := foldl Z.max (len kv.1) ((λ kv, len kv.1) <$> kvs)).
  exists L.
  assert (Hle : Forall (λ kv0 : string * setting, (len kv0.1 <= L)%Z) (kv :: kvs)).
  { apply Forall_cons. split; [apply foldl_max_ge_start|].
    apply Forall_forall. intros kv' Hkv'. apply foldl_max_ge.
    apply list_elem_of_fmap. eauto. }
  split; [|split; [|done]].
  - pose proof (foldl_max_elem (len kv.1) ((λ kv, len kv.1) <$> kvs)) as Hin.
    fold L in Hin. apply elem_of_cons in Hin as [Hin|Hin].
    + by apply Exists_cons_hd.
    + apply Exists_cons_tl. apply Exists_exists.
      apply list_elem_of_fmap in Hin as (kv' & -> & Hkv'). eauto.
  - eapply Forall_impl; [exact Hle|]. intros kv' Hkv'. simpl in *.
    split; [done|]. rewrite !len_append, len_blanks.
    change (len "  ") with 2%Z. lia.
Qed.

(** ** [MaxLIPOTR.run]: how often the objective is called *)

Section MaxLIPOTR_calls.
Context {T : Type} `{Countable T} {W : Type}.
Variable leb : T → T → bool.
Variable propose :
  direction → list T → list T → T → list (@observation T) → list T.

(** One memoized evaluation calls the objective at most once, and never at
    coordinates it was called at before. *)
Lemma memoize_once (f : list T → W → T * W) (args : list T) (st : memo T W)
    (n : nat) :
  NoDup (calls st) →
  (∀ a, a ∈ calls st → is_Some (cache st !! a)) →
  (length (calls st) ≤ n)%nat →
  let st' := snd (memoize f args st) in
  NoDup (calls st')
  ∧ (∀ a, a ∈ calls st' → is_Some (cache st' !! a))
  ∧ (length (calls st') ≤ S n)%nat.
Proof.
  intros Hnodup Hcached Hlen. unfold memoize.
  destruct (cache st !! args) as [y|] eqn:Hargs; simpl.
  - split; [done|]. split; [done|lia].
  - destruct (f args (objective_state st)) as [y w]. simpl.
    split; [|split].
    + apply NoDup_app. split; [done|]. split; [|apply NoDup_singleton].
      intros a Ha ->%list_elem_of_singleton.
      destruct (Hcached args Ha) as [y' Hy']. congruence.
    + intros a [Ha| ->%list_elem_of_singleton]%elem_of_app.
      * destruct (decide (args = a)) as [->|Hne].
        -- rewrite lookup_insert_eq. eauto.
        -- rewrite lookup_insert_ne by done. by apply Hcached.
      * rewrite lookup_insert_eq. eauto.
    + rewrite length_app. simpl. lia.
Qed.

Lemma global_function_search_once (self : MaxLIPOTR T W) d lo hi eps n :
  ∀ obs (st : memo T W) (m : nat),
  NoDup (calls st) →
  (∀ a, a ∈ calls st → is_Some (cache st !! a)) →
  (length (calls st) ≤ m)%nat →
  let st' := snd (global_function_search propose d lo hi eps
                    (_evaluate_objective self) n obs st) in
  NoDup (calls st')
  ∧ (∀ a, a ∈ calls st' → is_Some (cache st' !! a))
  ∧ (length (calls st') ≤ m + n)%nat.
Proof.
  induction n as [|n IH]; intros obs st m Hnodup Hcached Hlen; simpl.
  - split; [done|]. split; [done|lia].
  - pose proof (memoize_once (objective_function self)
                  (propose d lo hi eps obs) st m Hnodup Hcached Hlen) as Hstep.
    change (_evaluate_objective self (propose d lo hi eps obs) st)
      with (memoize (objective_function self) (propose d lo hi eps obs) st).
    destruct (memoize (objective_function self) (propose d lo hi eps obs) st)
      as [y st1]. simpl in Hstep. destruct Hstep as (Hnodup1 & Hcached1 & Hlen1).
    destruct (IH (obs ++ [(propose d lo hi eps obs, y)])%list st1 (S m)
                Hnodup1 Hcached1 Hlen1) as (? & ? & ?).
    split; [done|]. split; [done|lia].
Qed.
End MaxLIPOTR_calls.

(** X25. During one [run] on a fresh optimizer the objective function is never
    called twice with the same coordinates, and it is called at most
    [num_evals] times, whatever points dlib asks for and whatever the
    bounds. *)
Theorem run_calls_objective_once {T : Type} `{Countable T} {W : Type}
    (leb : T → T → bool)
    (propose : direction → list T → list T → T → list (@observation T) → list T)
    (self : MaxLIPOTR T W) (x_min x_max : pyval T) (num_evals : nat)
    (epsilon : T) (w : W) :
  let st := snd (run leb propose self x_min x_max num_evals epsilon
                   (memo_init w)) in
  NoDup (calls st) ∧ (length (calls st) ≤ num_evals)%nat.
Proof.
  intros st. subst st. unfold run, find_min_global, find_global.
  assert (Hinit : NoDup (calls (memo_init (T:=T) w))
                  ∧ (length (calls (memo_init (T:=T) w)) ≤ num_evals)%nat).
  { simpl. split; [apply NoDup_nil_2|lia]. }
  destruct (as_vector (as_bound_list x_min)) as [lo|]; [|done].
  destruct (as_vector (as_bound_list x_max)) as [hi|]; [|done].
  destruct (decide (length lo = length hi)); [|done].
  pose proof (global_function_search_once propose self Minimize lo hi epsilon
                num_evals [] (memo_init w) 0 (NoDup_nil_2)) as Hrun.
  destruct (global_function_search propose Minimize lo hi epsilon
              (_evaluate_objective self) num_evals [] (memo_init w))
    as [obs st'].
  simpl in Hrun. destruct Hrun as (Hnodup & _ & Hlen).
  - intros a Ha. by apply elem_of_nil in Ha.
  - lia.
  - by destruct obs.
Qed.
